(** * tu-sport-booking: the monitoring-and-booking control flow of [booking.py]

    A shallow embedding of [BookingManager] (and of the [FormFiller] it
    drives) together with the properties of its availability map, its slot
    resolution, its poll loop and its booking form flow.

    Modelling conventions.
    - A Python [dict] is an association list in insertion order with unique
      keys ([dget], [dset]); a [defaultdict(dict)] is such a list whose
      item read [d[k]] inserts an empty dict for a missing key.
    - Python exceptions are the constructors of [exn]; a pure function that
      may raise returns [res]; code that talks to the network, the browser or
      the clock runs in the monad [M] over an explicit [world].
    - [time.time()] is a clock in milliseconds ([now]) that only moves
      forward; each external action takes a duration scripted in the world.
    - The parsed markup is represented by what the BeautifulSoup queries of
      [fetch_available_slots] see: the schedule container, its rows, the
      header cells and bookable cells of a row, the anchor of a cell.
    - Text is a [string] of code points below 256.
    - Console output ([print]) is not part of the model. *)

From Stdlib Require Import ZArith List String Ascii Bool Lia DecimalString.
Import ListNotations.
Open Scope string_scope.
Open Scope Z_scope.

(** ** Python values *)

Inductive exn : Type :=
| ConnectionError
| ValueError (msg : string)
| KeyError (key : string)
| StopIteration
| AttributeError
| IndexError
| RequestException
| PlaywrightError.

Inductive res (A : Type) : Type :=
| Ok (a : A)
| Raise (e : exn).

Arguments Ok {A} a.
Arguments Raise {A} e.

Definition rbind {A B : Type} (r : res A) (k : A -> res B) : res B :=
  match r with
  | Ok a => k a
  | Raise e => Raise e
  end.

Notation "x <-? r ;; k" := (rbind r (fun x => k))
  (at level 61, r at next level, right associativity).

Section Dict.
Variable V : Type.

Definition dict : Type := list (string * V).

(** [d.get(k)]: the value stored under [k], if any. *)
Fixpoint dget (k : string) (d : dict) : option V :=
  match d with
  | [] => None
  | (k', v) :: rest => if String.eqb k k' then Some v else dget k rest
  end.

(** [d[k] = v]: an existing key keeps its position, a new key goes last. *)
Fixpoint dset (k : string) (v : V) (d : dict) : dict :=
  match d with
  | [] => [(k, v)]
  | (k', v') :: rest =>
      if String.eqb k k' then (k', v) :: rest else (k', v') :: dset k v rest
  end.

(** [d[k]] on a plain dict. *)
Definition getitem (k : string) (d : dict) : res V :=
  match dget k d with
  | Some v => Ok v
  | None => Raise (KeyError k)
  end.

(** [next(iter(d))]: the first key in insertion order. *)
Definition next_iter (d : dict) : res string :=
  match d with
  | [] => Raise StopIteration
  | (k, _) :: _ => Ok k
  end.

Definition keys (d : dict) : list string := map fst d.
End Dict.

Arguments dget {V} k d.
Arguments dset {V} k v d.
Arguments getitem {V} k d.
Arguments next_iter {V} d.
Arguments keys {V} d.

(** The double quote and the line feed, for use inside literals. *)
Definition dq : string := String "034"%char EmptyString.
Definition nl : string := String "010"%char EmptyString.

(** [str(n)] for an integer. *)
Definition str_int (n : Z) : string := NilZero.string_of_int (Z.to_int n).

(** [f"{n:02d}"]: sign-aware zero padding to a minimal width of two. *)
Definition fmt_02d (n : Z) : string :=
  let s := str_int n in
  if (String.length s <? 2)%nat then "0" ++ s else s.

Definition is_space (c : ascii) : bool :=
  let n := nat_of_ascii c in
  ((9 <=? n) && (n <=? 13) || (28 <=? n) && (n <=? 32)
   || (n =? 133) || (n =? 160))%nat.

Fixpoint lstrip (s : string) : string :=
  match s with
  | EmptyString => EmptyString
  | String c rest => if is_space c then lstrip rest else s
  end.

Fixpoint rstrip (s : string) : string :=
  match s with
  | EmptyString => EmptyString
  | String c rest =>
      match rstrip rest with
      | EmptyString => if is_space c then EmptyString else String c EmptyString
      | r => String c r
      end
  end.

(** [s.strip()] *)
Definition strip (s : string) : string := rstrip (lstrip s).

Definition lower_char (c : ascii) : ascii :=
  let n := nat_of_ascii c in
  if ((65 <=? n) && (n <=? 90)
      || (192 <=? n) && (n <=? 222) && negb (n =? 215))%nat
  then ascii_of_nat (n + 32) else c.

(** [s.lower()] *)
Fixpoint lower (s : string) : string :=
  match s with
  | EmptyString => EmptyString
  | String c rest => String (lower_char c) (lower rest)
  end.

(** [s[-1]] as a one-character string; [IndexError] on the empty string. *)
Fixpoint last_char (s : string) : res string :=
  match s with
  | EmptyString => Raise IndexError
  | String c EmptyString => Ok (String c EmptyString)
  | String _ rest => last_char rest
  end.

(** ** The availability map *)

(** A booking link is the [href] of an anchor; [None] when it has none. *)
Definition link : Type := option string.

(** field identifier -> booking link *)
Definition field_map : Type := dict link.
(** time-slot label -> fields *)
Definition time_map : Type := dict field_map.

(** The object handed around as [slots]: [default_factory] tells a
    [defaultdict(dict)], as built by [fetch_available_slots], from a plain
    [dict]. *)
Record slots_t : Type := mk_slots {
  default_factory : bool;
  items : dict time_map
}.

(** [slots[day]]: returns the value and the map as the read leaves it. *)
Definition getitem_day (slots : slots_t) (day : string)
  : res time_map * slots_t :=
  match dget day (items slots) with
  | Some tm => (Ok tm, slots)
  | None =>
      if default_factory slots
      then (Ok [], mk_slots true (dset day [] (items slots)))
      else (Raise (KeyError day), slots)
  end.

(** ** [generate_time_slot] and [get_booking_link] *)

Definition generate_time_slot (hour : Z) : string :=
  fmt_02d hour ++ ":00-" ++ fmt_02d (hour + 1) ++ ":00".

Definition no_slot_msg (day time : string) : string :=
  "No slot available on " ++ day ++ " at " ++ time ++ nl.

Definition get_booking_link (slots : slots_t) (day : string) (start_time : Z)
  : res link * slots_t :=
  let time := generate_time_slot start_time in
  (* try: first_pitch = next(iter(slots[day][time])) *)
  let '(r1, slots1) := getitem_day slots day in
  match (tm <-? r1 ;; fm <-? getitem time tm ;; next_iter fm) with
  | Raise (KeyError _) => (Raise (ValueError (no_slot_msg day time)), slots1)
  | Raise e => (Raise e, slots1)
  | Ok first_pitch =>
      (* return slots[day][time][first_pitch] *)
      let '(r2, slots2) := getitem_day slots1 day in
      (tm <-? r2 ;; fm <-? getitem time tm ;; getitem first_pitch fm, slots2)
  end.

(** The label of the one-hour slot starting at [hour], as the documentation
    of [generate_time_slot] words it: both hours on two digits. *)
Definition digit (n : Z) : ascii := ascii_of_nat (48 + Z.to_nat n).

Definition two_digits (n : Z) : string :=
  String (digit (n / 10)) (String (digit (n mod 10)) EmptyString).

Definition time_slot_label (hour : Z) : string :=
  two_digits hour ++ ":00-" ++ two_digits (hour + 1) ++ ":00".

(** ** The overview page as the parser queries it *)

(** The [a] tag of a bookable cell: the text of its [strong.time], the text
    of its [span.detail] and its [href], each absent when the query finds
    nothing. *)
Record anchor : Type := mk_anchor {
  strong_time : option string;
  span_detail : option string;
  href : link
}.

(** A [div.date.bookable]: its first [a] descendant, if any. *)
Record cell : Type := mk_cell { link_tag : option anchor }.

(** A [div.table-row]: the texts of its [div.table-head.column-1]
    descendants and its bookable cells, both in document order. *)
Record row : Type := mk_row {
  head_cells : list string;
  bookable : list cell
}.

(** The response of [requests.get]: the status code and, of the body, the
    rows of the [div.table-body-group] when there is one. *)
Record response : Type := mk_response {
  status_code : Z;
  table_body : option (list row)
}.

Definition default_dict {V : Type} (o : option (dict V)) : dict V :=
  match o with
  | Some d => d
  | None => []
  end.

(** The loop over the bookable cells of one row, filling [time_slots]. *)
Fixpoint collect_slots (available_slots : list cell) (time_slots : time_map)
  : res time_map :=
  match available_slots with
  | [] => Ok time_slots
  | c :: rest =>
      match link_tag c with
      | None => collect_slots rest time_slots
      | Some a =>
          match strong_time a, span_detail a with
          | Some time_slot, Some detail =>
              field <-? last_char detail ;;
              let fm := default_dict (dget time_slot time_slots) in
              collect_slots rest
                (dset time_slot (dset field (href a) fm) time_slots)
          | _, _ => Raise AttributeError
          end
      end
  end.

(** [day_slots[day_name][time_slot] = fm] on the [defaultdict]. *)
Definition store_slot (day_name : string) (day_slots : dict time_map)
  (entry : string * field_map) : dict time_map :=
  let tm := default_dict (dget day_name day_slots) in
  dset day_name (dset (fst entry) (snd entry) tm) day_slots.

(** The state of the scan: the current day and the map built so far. *)
Definition scan_state : Type := (string * dict time_map)%type.

Definition scan_row (st : scan_state) (r : row) : res scan_state :=
  let '(day_name, day_slots) := st in
  match head_cells r with
  | h :: _ => Ok (strip h, day_slots)
  | [] =>
      match bookable r with
      | [] => Ok st
      | available_slots =>
          time_slots <-? collect_slots available_slots [] ;;
          Ok (day_name, fold_left (store_slot day_name) time_slots day_slots)
      end
  end.

Fixpoint scan_rows (rows : list row) (st : scan_state) : res scan_state :=
  match rows with
  | [] => Ok st
  | r :: rest => st' <-? scan_row st r ;; scan_rows rest st'
  end.

Definition first_day : string := "Montag".

Definition no_table_msg : string :=
  "Could not find table containing time slots.".

(** The part of [fetch_available_slots] after the request. *)
Definition parse_response (resp : response) : res slots_t :=
  if negb (status_code resp =? 200) then Raise ConnectionError
  else
    match table_body resp with
    | None => Raise (ValueError no_table_msg)
    | Some rows =>
        st <-? scan_rows rows (first_day, []) ;;
        Ok (mk_slots true (snd st))
    end.

(** ** The world: network, browser and clock *)

Inductive event : Type :=
| HttpGet (url : string)
| Launch
| NewContext
| NewPage
| Goto (url : link)
| RoleCheck (role : string)
| RoleClick (role name : string)
| LocCheck (selector : string)
| LocFill (selector text : string)
| LocSelect (selector value : string)
| LocVisible (selector : string)
| Sleep (seconds : Z)
| CloseContext
| CloseBrowser.

(** [now] is the clock in milliseconds; [http] scripts the outcome of each
    request ([None]: the request itself fails); [browser] scripts the outcome
    of each browser call ([false]: the call raises, or, for a visibility
    query, answers no); [delays] scripts how long each external action takes;
    [log] records the actions issued, newest first, with their time. Once a
    script is used up, requests fail, browser calls succeed and actions take
    no time. *)
Record world : Type := mk_world {
  now : Z;
  http : list (option response);
  browser : list bool;
  delays : list N;
  log : list (Z * event)
}.

Inductive outcome (A : Type) : Type :=
| Returns (a : A)
| Raises (e : exn)
| Running.

Arguments Returns {A} a.
Arguments Raises {A} e.
Arguments Running {A}.

Definition M (A : Type) : Type := world -> outcome A * world.

Definition ret {A : Type} (a : A) : M A := fun w => (Returns a, w).

Definition raise {A : Type} (e : exn) : M A := fun w => (Raises e, w).

(** A loop that has not finished within the steps it was given. *)
Definition running {A : Type} : M A := fun w => (Running, w).

Definition bind {A B : Type} (m : M A) (k : A -> M B) : M B :=
  fun w =>
    match m w with
    | (Returns a, w') => k a w'
    | (Raises e, w') => (Raises e, w')
    | (Running, w') => (Running, w')
    end.

Notation "x <- m ;; k" := (bind m (fun x => k))
  (at level 61, m at next level, right associativity).
Notation "m ;; k" := (bind m (fun _ => k))
  (at level 61, right associativity).

Definition lift {A : Type} (r : res A) : M A :=
  match r with
  | Ok a => ret a
  | Raise e => raise e
  end.

Definition emit (e : event) : M unit :=
  fun w => (Returns tt,
            mk_world (now w) (http w) (browser w) (delays w)
                     ((now w, e) :: log w)).

Definition advance (ms : Z) : M unit :=
  fun w => (Returns tt,
            mk_world (now w + ms) (http w) (browser w) (delays w) (log w)).

(** The time the pending external action takes. *)
Definition elapse : M unit :=
  fun w =>
    match delays w with
    | [] => (Returns tt, w)
    | d :: rest =>
        (Returns tt,
         mk_world (now w + Z.of_N d) (http w) (browser w) rest (log w))
    end.

(** [time.time()] *)
Definition time_time : M Z := fun w => (Returns (now w), w).

(** [time.sleep(seconds)]: at least the time asked for. *)
Definition time_sleep (seconds : Z) : M unit :=
  emit (Sleep seconds) ;; advance (Z.max 0 seconds * 1000) ;; elapse.

Definition next_reply : M (option response) :=
  fun w =>
    match http w with
    | [] => (Returns None, w)
    | r :: rest =>
        (Returns r, mk_world (now w) rest (browser w) (delays w) (log w))
    end.

Definition next_answer : M bool :=
  fun w =>
    match browser w with
    | [] => (Returns true, w)
    | b :: rest =>
        (Returns b, mk_world (now w) (http w) rest (delays w) (log w))
    end.

(** [requests.get(url, timeout=10)] *)
Definition requests_get (url : string) : M response :=
  emit (HttpGet url) ;;
  elapse ;;
  r <- next_reply ;;
  match r with
  | Some resp => ret resp
  | None => raise RequestException
  end.

(** A call on the browser, the context or the page that returns nothing. *)
Definition act (e : event) : M unit :=
  emit e ;;
  elapse ;;
  ok <- next_answer ;;
  if ok then ret tt else raise PlaywrightError.

(** [page.locator(selector).is_visible()] *)
Definition is_visible (selector : string) : M bool :=
  emit (LocVisible selector) ;; elapse ;; next_answer.

(** [page.goto(url)]: a link that is [None] is refused. *)
Definition goto (url : link) : M unit :=
  match url with
  | Some _ => act (Goto url)
  | None => emit (Goto url) ;; raise PlaywrightError
  end.

(** ** [fetch_available_slots] *)

Definition fetch_available_slots (url : string) : M slots_t :=
  resp <- requests_get url ;;
  lift (parse_response resp).

(** ** [Person], [BankAccount], [FormFiller] *)

Record Person : Type := mk_person {
  gender : string;
  first_name : string;
  last_name : string;
  address : string;
  city : string;
  postal_code : string;
  status : string;
  student_number : string;
  email : string;
  phone : string;
  birthdate : string
}.

Record BankAccount : Type := mk_bank { iban : string; bic : string }.

Record BookingManager : Type := mk_manager {
  person1 : Person;
  person2 : Person;
  bank_details : BankAccount
}.

(** [f'{tag}[name="{name}{index}"]'] *)
Definition named (tag name index : string) : string :=
  tag ++ "[name=" ++ dq ++ name ++ index ++ dq ++ "]".

Definition gender_mapping : dict string :=
  [("male", "maennlich"); ("female", "weiblich")].

Definition mapped_gender (p : Person) : string :=
  match dget (lower (gender p)) gender_mapping with
  | Some g => g
  | None => "ska"
  end.

Definition fill_personal_details (person : Person) (index : option Z)
  : M unit :=
  let index := match index with None => "" | Some i => str_int i end in
  act (LocCheck (named "input" "Geschlecht" index
                 ++ "[id=" ++ dq ++ mapped_gender person ++ dq ++ "]")) ;;
  act (LocFill (named "input" "Vorname" index) (first_name person)) ;;
  act (LocFill (named "input" "Name" index) (last_name person)) ;;
  act (LocFill (named "input" "Strasse" index) (address person)) ;;
  act (LocFill (named "input" "Ort" index)
         (postal_code person ++ " " ++ city person)) ;;
  act (LocSelect (named "select" "Statusorig" index) (status person)) ;;
  act (LocFill (named "input" "Matnr" index) (student_number person)) ;;
  act (LocFill (named "input" "Mail" index) (email person)) ;;
  act (LocFill (named "input" "Tel" index) (phone person)) ;;
  visible <- is_visible (named "input" "Geburtsdatum" index) ;;
  if visible
  then act (LocFill (named "input" "Geburtsdatum" index) (birthdate person))
  else ret tt.

(** ** [fill_form] *)

Definition submit_form : event := RoleClick "button" "verbindlich anmelden".
Definition confirm_box : event := RoleCheck "checkbox".
Definition pay_and_book : event := RoleClick "button" "kostenpflichtig buchen".

(** The wait of the third page: leaves once more than [review_time_s]
    seconds have gone by since [t0], sleeping a second at a time. *)
Fixpoint review_wait (ticks : nat) (t0 review_time_s : Z) : M unit :=
  match ticks with
  | O => running
  | S n =>
      t <- time_time ;;
      let elapsed_time := t - t0 in
      if review_time_s * 1000 <? elapsed_time then ret tt
      else time_sleep 1 ;; review_wait n t0 review_time_s
  end.

(** First and second page, up to the submission of the form. *)
Definition enter_data (self : BookingManager) (booking_url : link) : M unit :=
  act Launch ;;
  act NewContext ;;
  act NewPage ;;
  goto booking_url ;;
  act (RoleCheck "radio") ;;
  act (RoleClick "button" "weiter zur Buchung") ;;
  fill_personal_details (person1 self) None ;;
  fill_personal_details (person2 self) (Some 2) ;;
  act (LocFill (named "input" "iban" "") (iban (bank_details self))) ;;
  act (LocFill (named "input" "bic" "") (bic (bank_details self))) ;;
  act (LocCheck (named "input" "BuchBed" "")) ;;
  act submit_form.

(** What follows the final click. *)
Definition wind_up : M unit :=
  time_sleep 10 ;;
  act CloseContext ;;
  act CloseBrowser.

Definition fill_form (self : BookingManager) (ticks : nat)
  (booking_url : link) (review_time_s : Z) : M unit :=
  enter_data self booking_url ;;
  act confirm_box ;;
  t0 <- time_time ;;
  review_wait ticks t0 review_time_s ;;
  act pay_and_book ;;
  wind_up.

(** ** [attempt_booking] and [monitor_slots] *)

Definition attempt_booking (self : BookingManager) (ticks : nat)
  (slots_url day : string) (start_time review_time_s : Z) : M unit :=
  slots <- fetch_available_slots slots_url ;;
  booking_url <- lift (fst (get_booking_link slots day start_time)) ;;
  fill_form self ticks booking_url review_time_s.

(** The wait between two polls: leaves once [refresh_interval_s] seconds
    have gone by since [t0]. *)
Fixpoint refresh_wait (ticks : nat) (t0 refresh_interval_s : Z) : M unit :=
  match ticks with
  | O => running
  | S n =>
      t <- time_time ;;
      let elapsed_time := t - t0 in
      let remaining_time := refresh_interval_s * 1000 - elapsed_time in
      if remaining_time <=? 0 then ret tt
      else time_sleep 1 ;; refresh_wait n t0 refresh_interval_s
  end.

(** [while True]: [polls] bounds the iterations that are run, [ticks] the
    iterations of each inner wait. *)
Fixpoint monitor_slots (self : BookingManager) (polls ticks : nat)
  (url day : string) (start_time refresh_interval_s review_time_s : Z)
  : M unit :=
  match polls with
  | O => running
  | S n =>
      attempt_booking self ticks url day start_time review_time_s ;;
      t0 <- time_time ;;
      refresh_wait ticks t0 refresh_interval_s ;;
      monitor_slots self n ticks url day start_time refresh_interval_s
                    review_time_s
  end.

(** How often a browser was launched, that is how often [fill_form] ran. *)
Definition launches (l : list (Z * event)) : nat :=
  List.length
    (filter (fun te => match snd te with Launch => true | _ => false end) l).

(** ** Vocabulary of the properties and sample data *)

(** The scenario map of the documentation, as either kind of dict. *)
Definition scenario (factory : bool) : slots_t :=
  mk_slots factory
    [("Montag", [("15:00-16:00", [("3", Some "link-a"); ("1", Some "link-b")])])].

(** A day with a time slot whose field mapping is empty. *)
Definition empty_fields (factory : bool) : slots_t :=
  mk_slots factory [("Montag", [("15:00-16:00", [])])].

(** The scan raises nothing but what a missing tag or an empty label gives. *)
Definition markup_error (e : exn) : Prop :=
  e = AttributeError \/ e = IndexError.

(** A page answered with status 204 and a well-formed, empty schedule. *)
Definition no_content : response := mk_response 204 (Some []).

(** Every value of the dict is a non-empty dict. *)
Definition values_nonempty {V : Type} (d : dict (dict V)) : Prop :=
  forall k v, In (k, v) d -> v <> [].

(** Every day has a time slot and every time slot has a field. *)
Definition inner_nonempty (m : dict time_map) : Prop :=
  forall day tm, In (day, tm) m -> tm <> [] /\ values_nonempty tm.

Definition no_header (r : row) : Prop := head_cells r = [].

(** Field [f] is on offer at time [t] in [ts]. *)
Definition has_field (t f : string) (ts : time_map) : Prop :=
  exists fm, dget t ts = Some fm /\ dget f fm <> None.

(** [te] was issued between [lo] and [hi] and its event satisfies [P]. *)
Definition stamped (P : event -> Prop) (lo hi : Z) (te : Z * event) : Prop :=
  lo <= fst te <= hi /\ P (snd te).

(** Whatever its outcome, [m] never turns the clock back and only adds to
    the log events that satisfy [P], stamped between its start and end. *)
Definition issues {A : Type} (P : event -> Prop) (m : M A) : Prop :=
  forall w r w',
    m w = (r, w') ->
    now w <= now w'
    /\ exists new, log w' = (new ++ log w)%list
                   /\ Forall (stamped P (now w) (now w')) new.

(** In a world whose browser refuses nothing, [m] returns and leaves such a
    world. *)
Definition completes {A : Type} (m : M A) : Prop :=
  forall w,
    browser w = [] -> exists a w', m w = (Returns a, w') /\ browser w' = [].

Definition not_final (e : event) : Prop := e <> pay_and_book.

(** An event of the third page that is neither a click nor a tick. *)
Definition idle (e : event) : Prop :=
  e <> pay_and_book /\ e <> submit_form /\ e <> confirm_box.

(** An event of after the wait: anything but what enters the third page. *)
Definition late_event (e : event) : Prop :=
  e <> submit_form /\ e <> confirm_box.

Definition anna : Person :=
  mk_person "female" "Anna" "Muster" "Hauptstr. 1" "Berlin" "10623" "S-TU"
            "123456" "anna@example.org" "030 1234" "01.02.2000".

Definition bert : Person :=
  mk_person "Male" "Bert" "Muster" "Hauptstr. 1" "Berlin" "10623" "extern"
            "" "bert@example.org" "030 5678" "03.04.1999".

Definition manager : BookingManager :=
  mk_manager anna bert (mk_bank "DE02120300000000202051" "BYLADEM1001").

Definition overview_url : string := "https://example.org/slots".

Definition field3 : anchor :=
  mk_anchor (Some "15:00-16:00") (Some "Feld 3") (Some "link-a").
Definition field1 : anchor :=
  mk_anchor (Some "15:00-16:00") (Some "Feld 1") (Some "link-b").
Definition evening : anchor :=
  mk_anchor (Some "20:00-21:00") (Some "Feld 2") (Some "link-c").

(** Monday, with no header of its own, offers fields 3 and 1 at 15; Tuesday
    offers field 2 at 20. *)
Definition monday_row : row :=
  mk_row [] [mk_cell (Some field3); mk_cell None; mk_cell (Some field1)].
Definition tuesday_header : row := mk_row [" Dienstag "] [].
Definition tuesday_row : row := mk_row [] [mk_cell (Some evening)].

Definition both_fields : response :=
  mk_response 200 (Some [monday_row; tuesday_header; tuesday_row]).
(** The same page once field 3 is taken. *)
Definition one_field : response :=
  mk_response 200
    (Some [mk_row [] [mk_cell (Some field1)]; tuesday_header; tuesday_row]).
(** Nothing on offer on Monday. *)
Definition tuesday_only : response :=
  mk_response 200 (Some [tuesday_header; tuesday_row]).
Definition server_error : response := mk_response 500 None.
Definition no_schedule : response := mk_response 200 None.

(** A world at time 0 in which the requests are answered by [replies] and
    every browser call succeeds at once. *)
Definition world_of (replies : list response) : world :=
  mk_world 0 (map Some replies) [] [] [].

Definition is_final_click (te : Z * event) : bool :=
  match snd te with
  | RoleClick _ name => String.eqb name "kostenpflichtig buchen"
  | _ => false
  end.

Definition final_clicks (l : list (Z * event)) : nat :=
  List.length (filter is_final_click l).

(** The links the browser was sent to, oldest first. *)
Definition visited (l : list (Z * event)) : list link :=
  rev (flat_map (fun te => match snd te with
                           | Goto u => [u]
                           | _ => []
                           end) l).

(** What the parser makes of [both_fields]. *)
Definition both_fields_slots : slots_t :=
  mk_slots true
    [("Montag",
      [("15:00-16:00", [("3", Some "link-a"); ("1", Some "link-b")])]);
     ("Dienstag", [("20:00-21:00", [("2", Some "link-c")])])].

(** ** Further vocabulary *)

(** The fields stored for day [d] at time [t]. *)
Definition lookup2 (d t : string) (m : dict time_map) : option field_map :=
  match dget d m with
  | Some tm => dget t tm
  | None => None
  end.

(** The link stored for field [f] at time [t]. *)
Definition field_link (t f : string) (ts : time_map) : option link :=
  match dget t ts with
  | Some fm => dget f fm
  | None => None
  end.

(** The time label and the field key under which the row loop files a cell,
    when the cell has what the loop reads. *)
Definition cell_key (c : cell) : option (string * string) :=
  match link_tag c with
  | Some a =>
      match strong_time a, span_detail a with
      | Some t, Some s =>
          match last_char s with
          | Ok f => Some (t, f)
          | Raise _ => None
          end
      | _, _ => None
      end
  | None => None
  end.

(** No key occurs twice, at any of the three levels of the map. *)
Definition unique_keys (m : dict time_map) : Prop :=
  NoDup (keys m)
  /\ forall d tm, In (d, tm) m ->
       NoDup (keys tm) /\ forall t fm, In (t, fm) tm -> NoDup (keys fm).

(** The hour a label starts with, read off its first two characters. *)
Definition digit_value (c : ascii) : Z := Z.of_nat (nat_of_ascii c) - 48.

Definition hour_of_label (s : string) : Z :=
  match s with
  | String a (String b _) => 10 * digit_value a + digit_value b
  | _ => -1
  end.

Definition hours_0_98 : list Z := map Z.of_nat (seq 0 99).

Definition is_get (e : event) : bool :=
  match e with
  | HttpGet _ => true
  | _ => false
  end.

(** The times at which requests were sent, newest first. *)
Definition get_times (l : list (Z * event)) : list Z :=
  map fst (filter (fun te => is_get (snd te)) l).

(** In a list of times given newest first, each time comes at least [d]
    after the one before it. *)
Fixpoint spaced (d : Z) (l : list Z) : Prop :=
  match l with
  | [] => True
  | t2 :: rest =>
      match rest with
      | [] => True
      | t1 :: _ => t1 + d <= t2
      end /\ spaced d rest
  end.

(** What the first two pages of [fill_form] for the link [url] may issue:
    no request, no sleep, no final click, no closing, and no navigation but
    to [url]. *)
Definition page_event (url : link) (e : event) : Prop :=
  match e with
  | HttpGet _ | Sleep _ | CloseContext | CloseBrowser => False
  | Goto u => u = url
  | RoleClick _ name => name <> "kostenpflichtig buchen"
  | _ => True
  end.

(** What [fill_form] for the link [url] may issue at all. *)
Definition form_event (url : link) (e : event) : Prop :=
  match e with
  | HttpGet _ => False
  | Goto u => u = url
  | _ => True
  end.

Definition is_close (e : event) : Prop := e = CloseContext \/ e = CloseBrowser.

(** When [m] returns, it has issued [e]. *)
Definition ends_with {A : Type} (e : event) (m : M A) : Prop :=
  forall w a w',
    m w = (Returns a, w') ->
    exists t new, log w' = (new ++ log w)%list /\ In (t, e) new.

(** Two cells of one row whose field labels end in the same character. *)
Definition field2 : anchor :=
  mk_anchor (Some "15:00-16:00") (Some "Feld 2") (Some "link-2").
Definition field12 : anchor :=
  mk_anchor (Some "15:00-16:00") (Some "Feld 12") (Some "link-12").

(** Every value of the dict has unique keys. *)
Definition values_unique {V : Type} (d : dict (dict V)) : Prop :=
  forall k v, In (k, v) d -> NoDup (keys v).

(** A run of [fill_form] with a review time of two seconds, in a world where
    nothing fails and nothing takes time. *)
Definition sample_run : outcome unit * world :=
  fill_form manager 10 (Some "link-a") 2 (world_of []).

(** ** Validation of the configuration *)

(** A value of the configuration file, for the kinds of value whose text
    [str] gives is modelled here: integers, booleans, strings and [None]. *)
Inductive pyval : Type :=
| PInt (n : Z)
| PBool (b : bool)
| PStr (s : string)
| PNone.

(** [isinstance(v, int)], with the integer when it holds; a [bool] is an
    [int] in Python. *)
Definition as_int (v : pyval) : option Z :=
  match v with
  | PInt n => Some n
  | PBool true => Some 1
  | PBool false => Some 0
  | _ => None
  end.

(** [f"{v}"] *)
Definition str_val (v : pyval) : string :=
  match v with
  | PInt n => str_int n
  | PBool true => "True"
  | PBool false => "False"
  | PStr s => s
  | PNone => "None"
  end.

(** [sep.join(l)] *)
Fixpoint join (sep : string) (l : list string) : string :=
  match l with
  | [] => ""
  | x :: rest =>
      match rest with
      | [] => x
      | _ => x ++ sep ++ join sep rest
      end
  end.

Definition valid_days : list string :=
  ["Montag"; "Dienstag"; "Mittwoch"; "Donnerstag"; "Freitag"; "Samstag";
   "Sonntag"].

(** [x in s] for a set or the keys of a dict given as a list. *)
Definition mem (x : string) (l : list string) : bool :=
  existsb (String.eqb x) l.

(** [validate_input_data]; [order] is the order in which the set
    [valid_days] happens to be iterated when the message is built. *)
Definition validate_input_data (order : list string) (day : string)
  (time refresh_interval review_time : pyval) : list string :=
  List.concat
    [ if negb (mem day valid_days)
      then ["Invalid day: " ++ day ++ ". Must be one of " ++ join ", " order]
      else [];
      if match as_int time with
         | Some t => negb ((8 <=? t) && (t <=? 22))
         | None => true
         end
      then ["Invalid start time: " ++ str_val time
            ++ ". Must be an integer between 8 and 22."]
      else [];
      if match as_int refresh_interval with
         | Some n => n <=? 0
         | None => true
         end
      then ["Invalid refresh interval: " ++ str_val refresh_interval
            ++ ". Must be a positive integer."]
      else [];
      if match as_int review_time with
         | Some n => n <? 0
         | None => true
         end
      then ["Invalid review time: " ++ str_val review_time
            ++ ". Must be a non-negative integer."]
      else [] ].

Definition in_range (lo hi : nat) (c : ascii) : bool :=
  ((lo <=? nat_of_ascii c) && (nat_of_ascii c <=? hi))%nat.

(** A letter, among the code points below 256. *)
Definition is_alpha (c : ascii) : bool :=
  in_range 65 90 c || in_range 97 122 c
  || (nat_of_ascii c =? 170)%nat || (nat_of_ascii c =? 181)%nat
  || (nat_of_ascii c =? 186)%nat
  || in_range 192 214 c || in_range 216 246 c || in_range 248 255 c.

(** A digit in the sense of [str.isdigit], which takes in the superscripts
    one, two and three. *)
Definition is_digit (c : ascii) : bool :=
  in_range 48 57 c
  || (nat_of_ascii c =? 178)%nat || (nat_of_ascii c =? 179)%nat
  || (nat_of_ascii c =? 185)%nat.

Fixpoint all_chars (p : ascii -> bool) (s : string) : bool :=
  match s with
  | EmptyString => true
  | String c rest => p c && all_chars p rest
  end.

Definition nonempty (s : string) : bool :=
  match s with
  | EmptyString => false
  | String _ _ => true
  end.

(** [s.isalpha()] and [s.isdigit()]: at least one character, and all of
    them of the kind. *)
Definition isalpha (s : string) : bool := nonempty s && all_chars is_alpha s.
Definition isdigit (s : string) : bool := nonempty s && all_chars is_digit s.

(** [s.replace(c, "")] for a single character [c]. *)
Fixpoint remove (c : ascii) (s : string) : string :=
  match s with
  | EmptyString => EmptyString
  | String x rest =>
      if Ascii.eqb x c then remove c rest else String x (remove c rest)
  end.

(** Regular expressions, as far as the two patterns of
    [validate_personal_details] need them, matched by derivatives. *)
Inductive regex : Type :=
| Empty
| Eps
| Class (p : ascii -> bool)
| Cat (r1 r2 : regex)
| Alt (r1 r2 : regex)
| Star (r : regex).

Definition Chr (c : ascii) : regex := Class (Ascii.eqb c).
Definition Plus (r : regex) : regex := Cat r (Star r).
Fixpoint Rep (n : nat) (r : regex) : regex :=
  match n with
  | O => Eps
  | S k => Cat r (Rep k r)
  end.

Fixpoint nullable (r : regex) : bool :=
  match r with
  | Empty => false
  | Eps => true
  | Class _ => false
  | Cat r1 r2 => nullable r1 && nullable r2
  | Alt r1 r2 => nullable r1 || nullable r2
  | Star _ => true
  end.

Fixpoint deriv (c : ascii) (r : regex) : regex :=
  match r with
  | Empty => Empty
  | Eps => Empty
  | Class p => if p c then Eps else Empty
  | Cat r1 r2 =>
      if nullable r1
      then Alt (Cat (deriv c r1) r2) (deriv c r2)
      else Cat (deriv c r1) r2
  | Alt r1 r2 => Alt (deriv c r1) (deriv c r2)
  | Star r1 => Cat (deriv c r1) (Star r1)
  end.

(** [re.fullmatch(r, s)] is a match. *)
Fixpoint fullmatch (r : regex) (s : string) : bool :=
  match s with
  | EmptyString => nullable r
  | String c rest => fullmatch (deriv c r) rest
  end.

(** The strings of a regular expression. *)
Inductive lang : regex -> string -> Prop :=
| lang_eps : lang Eps ""
| lang_class p c : p c = true -> lang (Class p) (String c "")
| lang_cat r1 r2 s1 s2 : lang r1 s1 -> lang r2 s2 -> lang (Cat r1 r2) (s1 ++ s2)
| lang_alt_l r1 r2 s : lang r1 s -> lang (Alt r1 r2) s
| lang_alt_r r1 r2 s : lang r2 s -> lang (Alt r1 r2) s
| lang_star_nil r : lang (Star r) ""
| lang_star_cons r s1 s2 :
    lang r s1 -> lang (Star r) s2 -> lang (Star r) (s1 ++ s2).

Definition is_alnum_ascii (c : ascii) : bool :=
  in_range 97 122 c || in_range 65 90 c || in_range 48 57 c.

(** [[a-zA-Z0-9_.+-]] *)
Definition local_char (c : ascii) : bool :=
  is_alnum_ascii c || Ascii.eqb c "_" || Ascii.eqb c "." || Ascii.eqb c "+"
  || Ascii.eqb c "-".
(** [[a-zA-Z0-9-]] *)
Definition domain_char (c : ascii) : bool :=
  is_alnum_ascii c || Ascii.eqb c "-".
(** [[a-zA-Z0-9-.]] *)
Definition tail_char (c : ascii) : bool :=
  is_alnum_ascii c || Ascii.eqb c "-" || Ascii.eqb c ".".
(** [\d], among the code points below 256 *)
Definition is_decimal (c : ascii) : bool := in_range 48 57 c.

(** [^[a-zA-Z0-9_.+-]+@[a-zA-Z0-9-]+\.[a-zA-Z0-9-.]+$] *)
Definition email_re : regex :=
  Cat (Plus (Class local_char))
    (Cat (Chr "@")
       (Cat (Plus (Class domain_char))
          (Cat (Chr ".") (Plus (Class tail_char))))).

(** [^\d{2}\.\d{2}\.\d{4}$] *)
Definition birthdate_re : regex :=
  Cat (Rep 2 (Class is_decimal))
    (Cat (Chr ".")
       (Cat (Rep 2 (Class is_decimal))
          (Cat (Chr ".") (Rep 4 (Class is_decimal))))).

Definition valid_status : dict string :=
  [("S-TU", "Student"); ("TU-Alumni", "Registered Alumni");
   ("extern", "External")].

Definition validate_personal_details (person : Person) : list string :=
  List.concat
    [ if negb (isalpha (first_name person))
      then ["Invalid first name: " ++ first_name person
            ++ ". First name should only contain alphabetic characters."]
      else [];
      if negb (isalpha (last_name person))
      then ["Invalid last name: " ++ last_name person
            ++ ". Last name should only contain alphabetic characters."]
      else [];
      if negb (isdigit (postal_code person)
               && (String.length (postal_code person) =? 5)%nat)
      then ["Invalid postal code: " ++ postal_code person
            ++ ". It must be a 5-digit number."]
      else [];
      if negb (fullmatch email_re (email person))
      then ["Invalid email address: " ++ email person]
      else [];
      if negb (mem (status person) (keys valid_status))
      then ["Invalid status: " ++ status person ++ ". Must be one of "
            ++ join ", " (map (fun kv => fst kv ++ " (" ++ snd kv ++ ")")
                              valid_status)
            ++ "."]
      else [];
      if negb (isdigit (remove "+" (remove " " (phone person))))
      then ["Invalid phone number: " ++ phone person
            ++ ". It must contain only digits."]
      else [];
      if negb (fullmatch birthdate_re (birthdate person))
      then ["Invalid birthdate format: " ++ birthdate person
            ++ ". It should be in the format dd.mm.yyyy."]
      else [] ].

(** What [validate_config] reads of the manager besides the persons. *)
Record Settings : Type := mk_settings {
  people : BookingManager;
  desired_day : string;
  desired_start_time : pyval;
  request_refresh_interval_s : pyval;
  review_time_s : pyval
}.

Definition config_errors (order : list string) (self : Settings)
  : list string :=
  List.concat
    [ validate_input_data order (desired_day self) (desired_start_time self)
        (request_refresh_interval_s self) (review_time_s self);
      validate_personal_details (person1 (people self));
      validate_personal_details (person2 (people self)) ].

(** [validate_config]; [answer] is the line typed at the prompt, which is
    only asked for when there are errors. *)
Definition validate_config (order : list string) (self : Settings)
  (answer : string) : res unit :=
  match config_errors order self with
  | [] => Ok tt
  | errors =>
      if negb (String.eqb (lower (strip answer)) "y")
      then Raise (ValueError (join nl errors))
      else Ok tt
  end.

(** The shape the e-mail pattern asks for. *)
Definition email_shape (s : string) : Prop :=
  exists local domain rest,
    s = local ++ "@" ++ domain ++ "." ++ rest
    /\ nonempty local = true /\ all_chars local_char local = true
    /\ nonempty domain = true /\ all_chars domain_char domain = true
    /\ nonempty rest = true /\ all_chars tail_char rest = true.

(** The shape the birthdate pattern asks for. *)
Definition birthdate_shape (s : string) : Prop :=
  exists dd mm yyyy,
    s = dd ++ "." ++ mm ++ "." ++ yyyy
    /\ String.length dd = 2%nat /\ all_chars is_decimal dd = true
    /\ String.length mm = 2%nat /\ all_chars is_decimal mm = true
    /\ String.length yyyy = 4%nat /\ all_chars is_decimal yyyy = true.

(** The form field a browser call addresses, for the calls on a locator. *)
Definition selector (e : event) : option string :=
  match e with
  | LocCheck s | LocFill s _ | LocSelect s _ | LocVisible s => Some s
  | _ => None
  end.

Definition uses_selector (l : list string) (e : event) : Prop :=
  exists s, selector e = Some s /\ In s l.

(** The form fields of the person with suffix [index] whose gender is
    ticked as [gender_id]. *)
Definition person_selectors (index gender_id : string) : list string :=
  [named "input" "Geschlecht" index ++ "[id=" ++ dq ++ gender_id ++ dq ++ "]";
   named "input" "Vorname" index;
   named "input" "Name" index;
   named "input" "Strasse" index;
   named "input" "Ort" index;
   named "select" "Statusorig" index;
   named "input" "Matnr" index;
   named "input" "Mail" index;
   named "input" "Tel" index;
   named "input" "Geburtsdatum" index].

Definition gender_ids : list string := ["maennlich"; "weiblich"; "ska"].

(** No field of the one list is a field of the other. *)
Definition apart (l1 l2 : list string) : bool :=
  forallb (fun s1 => forallb (fun s2 => negb (String.eqb s1 s2)) l2) l1.



(** A bookable cell with a link whose time tag or field label is missing, or
    whose field label is empty. *)
Definition malformed (c : cell) : bool :=
  match link_tag c with
  | None => false
  | Some a =>
      match strong_time a, span_detail a with
      | Some _, Some s => negb (nonempty s)
      | _, _ => true
      end
  end.

(** [m] comes to an end: it returns or raises the error of a browser call. *)
Definition ends {A : Type} (m : M A) : Prop :=
  forall w,
    (exists a w', m w = (Returns a, w'))
    \/ exists w', m w = (Raises PlaywrightError, w').

(** A world in which every browser call succeeds and both birthdate fields
    are hidden. *)
Definition hidden_birthdate : world :=
  mk_world 0 [] (repeat true 15 ++ [false] ++ repeat true 9 ++ [false])%list
           [] [].

(** A page with two slot rows before the first day header and two after
    it. *)
Definition late : anchor :=
  mk_anchor (Some "18:00-19:00") (Some "Feld 4") (Some "link-d").



(** A page whose second row has a cell with an empty field label. *)
Definition empty_label_row : row :=
  mk_row [] [mk_cell (Some (mk_anchor (Some "15:00-16:00") (Some "") None))].

Definition broken_page : response :=
  mk_response 200 (Some [monday_row; empty_label_row]).

(** The one-second sleeps among what was logged. *)
Definition is_tick (te : Z * event) : bool :=
  match snd te with
  | Sleep seconds => seconds =? 1
  | _ => false
  end.

Definition ticks_slept (l : list (Z * event)) : nat :=
  List.length (filter is_tick l).

Definition no_tick (e : event) : Prop := is_tick (0, e) = false.

(** * Properties *)

(** ** Dictionaries *)

Section DictFacts.
Variable V : Type.
Implicit Types (d : dict V) (k : string) (v : V).

Lemma dget_dset_same k v d : dget k (dset k v d) = Some v.
Proof.
  induction d as [|[k' v'] d IH]; simpl.
  - now rewrite String.eqb_refl.
  - destruct (String.eqb k k') eqn:E; simpl; rewrite E; auto.
Qed.

Lemma dget_dset_other k k' v d :
  k' <> k -> dget k' (dset k v d) = dget k' d.
Proof.
  intros Hne. induction d as [|[k0 v0] d IH]; simpl.
  - destruct (String.eqb k' k) eqn:E; auto.
    apply String.eqb_eq in E. contradiction.
  - destruct (String.eqb k k0) eqn:E; simpl.
    + apply String.eqb_eq in E. subst k0.
      destruct (String.eqb k' k) eqn:E'; auto.
      apply String.eqb_eq in E'. contradiction.
    + now rewrite IH.
Qed.

Lemma dget_In k v d : dget k d = Some v -> In (k, v) d.
Proof.
  induction d as [|[k' v'] d IH]; simpl; [discriminate|].
  destruct (String.eqb k k') eqn:E.
  - apply String.eqb_eq in E. intros [= ->]. subst. now left.
  - auto.
Qed.

Lemma In_dset k v k' v' d :
  In (k', v') (dset k v d) -> (k' = k /\ v' = v) \/ In (k', v') d.
Proof.
  induction d as [|[k0 v0] d IH]; simpl.
  - intros [[= <- <-]|[]]. now left.
  - destruct (String.eqb k k0) eqn:E; simpl.
    + apply String.eqb_eq in E. subst k0.
      intros [[= <- <-]|H]; [now left | right; now right].
    + intros [H|H]; [right; now left|].
      destruct (IH H) as [?|?]; [now left | right; now right].
Qed.

Lemma keys_dset_In k v k' d :
  In k' (keys (dset k v d)) -> k' = k \/ In k' (keys d).
Proof.
  unfold keys. intros H. apply in_map_iff in H.
  destruct H as [[k0 v0] [Hk Hin]]. simpl in Hk. subst k0.
  destruct (In_dset _ _ _ _ _ Hin) as [[-> _]|H]; [now left|right].
  change k' with (fst (k', v0)). now apply in_map.
Qed.

Lemma NoDup_dset k v d : NoDup (keys d) -> NoDup (keys (dset k v d)).
Proof.
  induction d as [|[k0 v0] d IH]; simpl; intros Hnd.
  - constructor; [tauto | constructor].
  - inversion Hnd as [|? ? Hni Hnd']; subst.
    destruct (String.eqb k k0) eqn:E; simpl.
    + now constructor.
    + constructor; auto.
      intros H. apply keys_dset_In in H. destruct H as [->|H]; auto.
      now rewrite String.eqb_refl in E.
Qed.

Lemma dset_nonempty k v d : dset k v d <> [].
Proof.
  destruct d as [|[k0 v0] d]; simpl; [discriminate|].
  destruct (String.eqb k k0); discriminate.
Qed.
End DictFacts.

Arguments dget_dset_same {V} k v d.
Arguments dget_dset_other {V} k k' v d.
Arguments dget_In {V} k v d.
Arguments In_dset {V} k v k' v' d.
Arguments keys_dset_In {V} k v k' d.
Arguments NoDup_dset {V} k v d.
Arguments dset_nonempty {V} k v d.

Create HintDb dictdb.
#[local] Hint Resolve dset_nonempty dget_In NoDup_dset : dictdb.

(** ** [generate_time_slot] *)

Lemma hour_cases (hour : Z) :
  8 <= hour < 22 ->
  In hour [8; 9; 10; 11; 12; 13; 14; 15; 16; 17; 18; 19; 20; 21].
Proof.
  intros H. simpl.
  assert (hour = 8 \/ hour = 9 \/ hour = 10 \/ hour = 11 \/ hour = 12
          \/ hour = 13 \/ hour = 14 \/ hour = 15 \/ hour = 16 \/ hour = 17
          \/ hour = 18 \/ hour = 19 \/ hour = 20 \/ hour = 21) by lia.
  intuition.
Qed.

(** C7. For every hour from 8 up to but not including 22,
    [generate_time_slot] yields the label made of the hour and of the next
    hour, each on two digits and followed by [":00"], joined by a dash; at
    the two ends, 8 gives ["08:00-09:00"] and 21 gives ["21:00-22:00"]. *)
Theorem generate_time_slot_label :
  (forall hour, 8 <= hour < 22 ->
     generate_time_slot hour = time_slot_label hour)
  /\ generate_time_slot 8 = "08:00-09:00"
  /\ generate_time_slot 21 = "21:00-22:00".
Proof.
  split; [|split; reflexivity].
  intros hour H. apply hour_cases in H.
  repeat (destruct H as [<-|H]; [reflexivity|]).
  destruct H.
Qed.

Lemma generate_time_slot_label_witness :
  8 <= 15 < 22 /\ generate_time_slot 15 = time_slot_label 15.
Proof.
  split; [lia|].
  apply (proj1 generate_time_slot_label 15). lia.
Defined.

(** ** [get_booking_link] *)

Lemma getitem_day_present slots day tm :
  dget day (items slots) = Some tm ->
  getitem_day slots day = (Ok tm, slots).
Proof. unfold getitem_day. now intros ->. Qed.

(** With the day present the call is a pure function of the entry found
    under the day and the label, and leaves the map alone. *)
Lemma get_booking_link_present slots day hour tm :
  dget day (items slots) = Some tm ->
  get_booking_link slots day hour =
    (match dget (generate_time_slot hour) tm with
     | None =>
         Raise (ValueError (no_slot_msg day (generate_time_slot hour)))
     | Some [] => Raise StopIteration
     | Some ((_, l) :: _) => Ok l
     end, slots).
Proof.
  intros Hd. unfold get_booking_link.
  rewrite (getitem_day_present _ _ _ Hd). simpl. unfold getitem.
  destruct (dget (generate_time_slot hour) tm) as [[|[f l] fm]|] eqn:Et;
    simpl; auto.
  rewrite (getitem_day_present _ _ _ Hd). simpl. unfold getitem.
  rewrite Et. simpl. now rewrite String.eqb_refl.
Qed.

(** With the day absent the call raises the [ValueError]; a [defaultdict]
    has gained the day by then. *)
Lemma get_booking_link_absent slots day hour :
  dget day (items slots) = None ->
  get_booking_link slots day hour =
    (Raise (ValueError (no_slot_msg day (generate_time_slot hour))),
     if default_factory slots
     then mk_slots true (dset day [] (items slots))
     else slots).
Proof.
  intros Hd. unfold get_booking_link, getitem_day. rewrite Hd.
  destruct (default_factory slots); reflexivity.
Qed.

(** A plain dict is never changed by the call. *)
Lemma get_booking_link_plain_frame slots day hour :
  default_factory slots = false ->
  snd (get_booking_link slots day hour) = slots.
Proof.
  intros Hf. destruct (dget day (items slots)) as [tm|] eqn:Hd.
  - now rewrite (get_booking_link_present _ _ hour _ Hd).
  - rewrite (get_booking_link_absent _ _ hour Hd). now rewrite Hf.
Qed.

(** C6. [get_booking_link] is deterministic: asked again for the same day
    and hour on the map as the first call left it, it answers the same. On
    success it returns the link of the first field entry, in insertion
    order, of the mapping found under the day and the time label. On the
    scenario map, day Montag and hour 15 give link-a, the link of field 3
    that was inserted before field 1. *)
Theorem get_booking_link_first_field :
  (forall slots day hour,
     fst (get_booking_link (snd (get_booking_link slots day hour)) day hour)
     = fst (get_booking_link slots day hour))
  /\ (forall slots day hour tm f l rest,
        dget day (items slots) = Some tm ->
        dget (generate_time_slot hour) tm = Some ((f, l) :: rest) ->
        fst (get_booking_link slots day hour) = Ok l)
  /\ (forall factory,
        fst (get_booking_link (scenario factory) "Montag" 15)
        = Ok (Some "link-a")).
Proof.
  split; [|split].
  - intros slots day hour.
    destruct (dget day (items slots)) as [tm|] eqn:Hd.
    + rewrite (get_booking_link_present _ _ hour _ Hd). simpl.
      now rewrite (get_booking_link_present _ _ hour _ Hd).
    + rewrite (get_booking_link_absent _ _ hour Hd). simpl.
      destruct (default_factory slots).
      * erewrite get_booking_link_present
          by (simpl; apply dget_dset_same).
        reflexivity.
      * now rewrite (get_booking_link_absent _ _ hour Hd).
  - intros slots day hour tm f l rest Hd Ht.
    rewrite (get_booking_link_present _ _ hour _ Hd). now rewrite Ht.
  - intros []; reflexivity.
Qed.

Lemma get_booking_link_first_field_witness :
  fst (get_booking_link (scenario true) "Montag" 15) = Ok (Some "link-a").
Proof.
  apply (proj1 (proj2 get_booking_link_first_field)
           (scenario true) "Montag" 15
           [("15:00-16:00", [("3", Some "link-a"); ("1", Some "link-b")])]
           "3" (Some "link-a") [("1", Some "link-b")]);
    reflexivity.
Defined.

(** C3, as the claim states it, fails: a day and time label that are present
    with an empty field mapping do not give the [ValueError] of the other
    two cases. *)
Lemma empty_fields_not_value_error :
  ~ (forall slots day hour tm,
       dget day (items slots) = Some tm ->
       dget (generate_time_slot hour) tm = Some [] ->
       exists msg,
         fst (get_booking_link slots day hour) = Raise (ValueError msg)).
Proof.
  intros H.
  destruct (H (empty_fields true) "Montag" 15 [("15:00-16:00", [])]
              eq_refl eq_refl) as [msg Hmsg].
  vm_compute in Hmsg. discriminate.
Qed.

(** C3, amended. [get_booking_link] raises one and the same [ValueError],
    whose message names only the day and the time label asked for, when the
    day is absent from the map and when the time label is absent under the
    day. *)
Theorem get_booking_link_unavailable :
  forall slots day hour,
    (dget day (items slots) = None
     \/ exists tm, dget day (items slots) = Some tm
                   /\ dget (generate_time_slot hour) tm = None) ->
    fst (get_booking_link slots day hour)
    = Raise (ValueError (no_slot_msg day (generate_time_slot hour))).
Proof.
  intros slots day hour [Hd|[tm [Hd Ht]]].
  - now rewrite (get_booking_link_absent _ _ hour Hd).
  - rewrite (get_booking_link_present _ _ hour _ Hd). now rewrite Ht.
Qed.

Lemma get_booking_link_unavailable_witness :
  fst (get_booking_link (scenario true) "Dienstag" 15)
  = Raise (ValueError (no_slot_msg "Dienstag" (generate_time_slot 15)))
  /\ fst (get_booking_link (scenario true) "Montag" 16)
     = Raise (ValueError (no_slot_msg "Montag" (generate_time_slot 16))).
Proof.
  split.
  - apply get_booking_link_unavailable. left. reflexivity.
  - apply get_booking_link_unavailable. right.
    exists [("15:00-16:00", [("3", Some "link-a"); ("1", Some "link-b")])].
    split; reflexivity.
Defined.

(** C9 does not hold of the code: the map that [fetch_available_slots]
    builds from a page whose schedule has no rows is empty, and asking it for
    Montag at 15 leaves it with an entry for Montag. *)
Theorem get_booking_link_inserts_day :
  parse_response (mk_response 200 (Some [])) = Ok (mk_slots true [])
  /\ snd (get_booking_link (mk_slots true []) "Montag" 15)
     = mk_slots true [("Montag", [])]
  /\ snd (get_booking_link (mk_slots true []) "Montag" 15)
     <> mk_slots true [].
Proof.
  split; [reflexivity|split; [reflexivity|]].
  vm_compute. discriminate.
Qed.

(** ** The parser *)

Lemma rbind_Ok {A B : Type} (r : res A) (k : A -> res B) (b : B) :
  rbind r k = Ok b -> exists a, r = Ok a /\ k a = Ok b.
Proof. destruct r as [a|e]; simpl; [eauto | discriminate]. Qed.

Lemma last_char_error s e : last_char s = Raise e -> e = IndexError.
Proof.
  induction s as [|c s IH]; simpl.
  - now intros [= <-].
  - destruct s; [discriminate | exact IH].
Qed.

Lemma collect_slots_error cells :
  forall ts e, collect_slots cells ts = Raise e -> markup_error e.
Proof.
  induction cells as [|c cells IH]; simpl; intros ts e; [discriminate|].
  destruct (link_tag c) as [a|]; [|apply IH].
  destruct (strong_time a) as [t|]; [|intros [= <-]; now left].
  destruct (span_detail a) as [s|]; [|intros [= <-]; now left].
  destruct (last_char s) as [f|e'] eqn:El; simpl; [apply IH|].
  intros [= <-]. right. eapply last_char_error; eauto.
Qed.

Lemma scan_row_error st r e : scan_row st r = Raise e -> markup_error e.
Proof.
  destruct st as [d m]. unfold scan_row.
  destruct (head_cells r); [|discriminate].
  destruct (bookable r) as [|c cells]; [discriminate|].
  destruct (collect_slots (c :: cells) []) as [ts|e'] eqn:Ec; simpl;
    [discriminate|].
  intros [= <-]. eapply collect_slots_error; eauto.
Qed.

Lemma scan_rows_error rows :
  forall st e, scan_rows rows st = Raise e -> markup_error e.
Proof.
  induction rows as [|r rows IH]; simpl; intros st e; [discriminate|].
  destruct (scan_row st r) as [st'|e'] eqn:Er; simpl; [apply IH|].
  intros [= <-]. eapply scan_row_error; eauto.
Qed.

Lemma parse_response_connection_error resp :
  parse_response resp = Raise ConnectionError <-> status_code resp <> 200.
Proof.
  unfold parse_response.
  destruct (status_code resp =? 200) eqn:E; simpl.
  - apply Z.eqb_eq in E. split; [|tauto].
    destruct (table_body resp) as [rows|]; [|discriminate].
    destruct (scan_rows rows (first_day, [])) as [st|e] eqn:Es; simpl;
      [discriminate|].
    intros [= ->]. apply scan_rows_error in Es.
    destruct Es; discriminate.
  - apply Z.eqb_neq in E. tauto.
Qed.

(** A request that is answered hands the answer over. *)
Lemma requests_get_reply url w resp rest :
  http w = Some resp :: rest ->
  exists w', requests_get url w = (Returns resp, w').
Proof.
  intros Hh. unfold requests_get, bind, emit, elapse, next_reply, ret; simpl.
  destruct (delays w); simpl; rewrite Hh; eauto.
Qed.

Lemma fetch_available_slots_reply url w resp rest :
  http w = Some resp :: rest ->
  fst (fetch_available_slots url w)
  = match parse_response resp with
    | Ok slots => Returns slots
    | Raise e => Raises e
    end.
Proof.
  intros Hh. unfold fetch_available_slots, bind.
  destruct (requests_get_reply url w resp rest Hh) as [w' ->].
  now destruct (parse_response resp).
Qed.

(** C5, as the claim states it, fails: a response in the 2xx range other
    than 200 makes [fetch_available_slots] raise [ConnectionError]. *)
Lemma status_204_refused :
  ~ (forall url w resp rest,
       http w = Some resp :: rest ->
       200 <= status_code resp < 300 ->
       fst (fetch_available_slots url w) <> Raises ConnectionError).
Proof.
  intros H.
  apply (H "u" (mk_world 0 [Some no_content] [] [] []) no_content []);
    [reflexivity | simpl; lia | reflexivity].
Qed.

(** C5, amended. Given a response, [fetch_available_slots] raises
    [ConnectionError] exactly when its status code is not 200. *)
Theorem fetch_available_slots_status :
  forall url w resp rest,
    http w = Some resp :: rest ->
    (fst (fetch_available_slots url w) = Raises ConnectionError
     <-> status_code resp <> 200).
Proof.
  intros url w resp rest Hh.
  rewrite (fetch_available_slots_reply url w resp rest Hh).
  rewrite <- parse_response_connection_error.
  destruct (parse_response resp) as [s|e]; split; try discriminate.
  - now intros [= ->].
  - now intros [= ->].
Qed.

Lemma fetch_available_slots_status_witness :
  fst (fetch_available_slots "u" (mk_world 0 [Some no_content] [] [] []))
  = Raises ConnectionError.
Proof.
  apply (fetch_available_slots_status "u"
           (mk_world 0 [Some no_content] [] [] []) no_content [] eq_refl).
  simpl. lia.
Defined.

(** *** Inner mappings are never empty *)

Lemma values_nonempty_dset {V : Type} k (v : dict V) d :
  v <> [] -> values_nonempty d -> values_nonempty (dset k v d).
Proof.
  intros Hv Hd k' v' Hin.
  destruct (In_dset _ _ _ _ _ Hin) as [[_ ->]|H]; eauto.
Qed.

Lemma collect_slots_nonempty cells :
  forall ts ts',
    values_nonempty ts -> collect_slots cells ts = Ok ts' ->
    values_nonempty ts'.
Proof.
  induction cells as [|c cells IH]; simpl; intros ts ts' Hts.
  - now intros [= <-].
  - destruct (link_tag c) as [a|]; [|now apply IH].
    destruct (strong_time a) as [t|]; [|discriminate].
    destruct (span_detail a) as [s|]; [|discriminate].
    destruct (last_char s) as [f|e]; simpl; [|discriminate].
    apply IH. apply values_nonempty_dset; auto with dictdb.
Qed.

Lemma store_slot_nonempty d m entry :
  snd entry <> [] -> inner_nonempty m -> inner_nonempty (store_slot d m entry).
Proof.
  intros He Hm day tm Hin. unfold store_slot in Hin.
  destruct (In_dset _ _ _ _ _ Hin) as [[_ ->]|H]; [|exact (Hm _ _ H)].
  split; [apply dset_nonempty|].
  apply values_nonempty_dset; auto.
  destruct (dget d m) as [tm0|] eqn:E; simpl.
  - apply dget_In in E. now apply (Hm _ _ E).
  - intros ? ? [].
Qed.

Lemma store_all_nonempty d ts :
  forall m,
    values_nonempty ts -> inner_nonempty m ->
    inner_nonempty (fold_left (store_slot d) ts m).
Proof.
  induction ts as [|[t fm] ts IH]; simpl; intros m Hts Hm; auto.
  apply IH.
  - intros k v Hin. apply (Hts k v). now right.
  - apply store_slot_nonempty; auto. simpl. apply (Hts t fm). now left.
Qed.

Lemma scan_row_nonempty st r st' :
  inner_nonempty (snd st) -> scan_row st r = Ok st' ->
  inner_nonempty (snd st').
Proof.
  destruct st as [d m]. unfold scan_row. cbn [snd]. intros Hm.
  destruct (head_cells r); [|now intros [= <-]].
  destruct (bookable r) as [|c cells]; [now intros [= <-]|].
  intros H. apply rbind_Ok in H. destruct H as [ts [Hc [= <-]]]. cbn [snd].
  apply store_all_nonempty; auto.
  eapply collect_slots_nonempty; [|exact Hc]. intros ? ? [].
Qed.

Lemma scan_rows_nonempty rows :
  forall st st',
    inner_nonempty (snd st) -> scan_rows rows st = Ok st' ->
    inner_nonempty (snd st').
Proof.
  induction rows as [|r rows IH]; simpl; intros st st' Hm.
  - now intros [= <-].
  - intros H. apply rbind_Ok in H. destruct H as [st1 [Hr Hrest]].
    eapply IH; [|exact Hrest]. eapply scan_row_nonempty; eauto.
Qed.

Lemma parse_response_nonempty resp slots :
  parse_response resp = Ok slots -> inner_nonempty (items slots).
Proof.
  unfold parse_response.
  destruct (negb (status_code resp =? 200)); [discriminate|].
  destruct (table_body resp) as [rows|]; [|discriminate].
  intros H. apply rbind_Ok in H. destruct H as [st [Hs [= <-]]]. simpl.
  eapply scan_rows_nonempty; [|exact Hs]. intros ? ? [].
Qed.

(** What [fetch_available_slots] returns is what the parser made of some
    response. *)
Lemma fetch_available_slots_returns url w slots w' :
  fetch_available_slots url w = (Returns slots, w') ->
  exists resp, parse_response resp = Ok slots.
Proof.
  unfold fetch_available_slots, bind.
  destruct (requests_get url w) as [[resp| |] w1]; try discriminate.
  destruct (parse_response resp) as [s|e] eqn:Ep; simpl; try discriminate.
  unfold ret. intros [= <- <-]. eauto.
Qed.

(** C10. In every map that [fetch_available_slots] returns, every day
    present maps to at least one time-slot label and every time-slot label
    present maps to at least one field; [get_booking_link] therefore never
    meets an empty field mapping in such a map. *)
Theorem fetch_available_slots_inner_nonempty :
  forall url w slots w',
    fetch_available_slots url w = (Returns slots, w') ->
    (forall day tm,
       dget day (items slots) = Some tm ->
       tm <> []
       /\ forall label fm, dget label tm = Some fm -> fm <> [])
    /\ forall day hour,
         fst (get_booking_link slots day hour) <> Raise StopIteration.
Proof.
  intros url w slots w' Hf.
  apply fetch_available_slots_returns in Hf. destruct Hf as [resp Hp].
  apply parse_response_nonempty in Hp.
  assert (Hinv : forall day tm,
             dget day (items slots) = Some tm ->
             tm <> [] /\ forall label fm, dget label tm = Some fm -> fm <> []).
  { intros day tm Hd. apply dget_In in Hd. destruct (Hp _ _ Hd) as [Hne Hv].
    split; auto. intros label fm Hl. apply dget_In in Hl. eauto. }
  split; [exact Hinv|].
  intros day hour. destruct (dget day (items slots)) as [tm|] eqn:Hd.
  - rewrite (get_booking_link_present _ _ hour _ Hd). simpl.
    destruct (dget (generate_time_slot hour) tm) as [[|[f l] fm]|] eqn:Et;
      try discriminate.
    exfalso. now apply (proj2 (Hinv _ _ Hd) _ _ Et).
  - rewrite (get_booking_link_absent _ _ hour Hd). discriminate.
Qed.

(** *** The day context *)

Lemma has_field_dset t f t0 f0 (l : link) ts :
  has_field t f ts \/ (t = t0 /\ f = f0) ->
  has_field t f (dset t0 (dset f0 l (default_dict (dget t0 ts))) ts).
Proof.
  intros H. unfold has_field.
  destruct (string_dec t t0) as [->|Hne].
  - rewrite dget_dset_same. eexists; split; [reflexivity|].
    destruct (string_dec f f0) as [->|Hf].
    + rewrite dget_dset_same. discriminate.
    + rewrite dget_dset_other by exact Hf.
      destruct H as [[fm [Hg Hfm]]|[_ Heq]]; [|contradiction].
      rewrite Hg. exact Hfm.
  - rewrite dget_dset_other by exact Hne.
    destruct H as [H|[Heq _]]; [exact H | contradiction].
Qed.

Lemma collect_slots_keeps t f cells :
  forall ts ts',
    has_field t f ts -> collect_slots cells ts = Ok ts' -> has_field t f ts'.
Proof.
  induction cells as [|c cells IH]; simpl; intros ts ts' Hh.
  - now intros [= <-].
  - destruct (link_tag c) as [a|]; [|now apply IH].
    destruct (strong_time a) as [t0|]; [|discriminate].
    destruct (span_detail a) as [s|]; [|discriminate].
    destruct (last_char s) as [f0|e]; simpl; [|discriminate].
    apply IH. apply has_field_dset. now left.
Qed.

Lemma collect_slots_adds a t s f cells :
  strong_time a = Some t -> span_detail a = Some s -> last_char s = Ok f ->
  In (mk_cell (Some a)) cells ->
  forall ts ts', collect_slots cells ts = Ok ts' -> has_field t f ts'.
Proof.
  intros Ht Hs Hf. induction cells as [|c cells IH]; simpl; [tauto|].
  intros [->|Hin] ts ts'.
  - simpl. rewrite Ht, Hs, Hf. simpl.
    apply collect_slots_keeps. apply has_field_dset. now right.
  - destruct (link_tag c) as [a0|]; [|now apply IH].
    destruct (strong_time a0) as [t0|]; [|discriminate].
    destruct (span_detail a0) as [s0|]; [|discriminate].
    destruct (last_char s0) as [f0|e]; simpl; [|discriminate].
    now apply IH.
Qed.

Lemma collect_slots_NoDup cells :
  forall ts ts',
    NoDup (keys ts) -> collect_slots cells ts = Ok ts' -> NoDup (keys ts').
Proof.
  induction cells as [|c cells IH]; simpl; intros ts ts' Hnd.
  - now intros [= <-].
  - destruct (link_tag c) as [a|]; [|now apply IH].
    destruct (strong_time a) as [t0|]; [|discriminate].
    destruct (span_detail a) as [s|]; [|discriminate].
    destruct (last_char s) as [f0|e]; simpl; [|discriminate].
    apply IH. auto with dictdb.
Qed.

(** Storing the slots of a row keeps what is already stored under the day
    for the labels the row does not mention. *)
Lemma store_all_other d t (fm : field_map) ts :
  forall (m : dict time_map) (tm : time_map),
    ~ In t (keys ts) -> dget d m = Some tm -> dget t tm = Some fm ->
    exists tm', dget d (fold_left (store_slot d) ts m) = Some tm'
                /\ dget t tm' = Some fm.
Proof.
  induction ts as [|[t0 fm0] ts IH]; simpl; intros m tm Hni Hd Ht; eauto.
  assert (Hne : t <> t0) by (intros ->; apply Hni; now left).
  apply (IH (store_slot d m (t0, fm0)) (dset t0 fm0 tm)).
  - intros H. apply Hni. now right.
  - unfold store_slot. rewrite Hd. apply dget_dset_same.
  - rewrite dget_dset_other; auto.
Qed.

(** After the slots of a row are stored, each is found under the day. *)
Lemma store_all_found d t (fm : field_map) ts :
  forall (m : dict time_map),
    NoDup (keys ts) -> In (t, fm) ts ->
    exists tm', dget d (fold_left (store_slot d) ts m) = Some tm'
                /\ dget t tm' = Some fm.
Proof.
  induction ts as [|[t0 fm0] ts IH]; simpl; intros m Hnd Hin; [tauto|].
  inversion Hnd as [|? ? Hni Hnd']; subst.
  destruct Hin as [[= -> ->]|Hin].
  - eapply store_all_other; eauto.
    + unfold store_slot. apply dget_dset_same.
    + simpl. apply dget_dset_same.
  - now apply IH.
Qed.

Lemma scan_rows_app a :
  forall b st,
    scan_rows (a ++ b) st = (st' <-? scan_rows a st ;; scan_rows b st').
Proof.
  induction a as [|r a IH]; simpl; intros b st; auto.
  destruct (scan_row st r) as [st1|e]; simpl; auto.
Qed.

Lemma scan_row_header st r h hs :
  head_cells r = h :: hs -> scan_row st r = Ok (strip h, snd st).
Proof. destruct st as [d m]. unfold scan_row. now intros ->. Qed.

Lemma scan_row_keeps_day st r st' :
  no_header r -> scan_row st r = Ok st' -> fst st' = fst st.
Proof.
  destruct st as [d m]. unfold scan_row, no_header. intros ->.
  destruct (bookable r) as [|c cells]; [now intros [= <-]|].
  intros H. apply rbind_Ok in H. now destruct H as [ts [_ [= <-]]].
Qed.

Lemma scan_rows_keep_day rows :
  forall st st',
    Forall no_header rows -> scan_rows rows st = Ok st' -> fst st' = fst st.
Proof.
  induction rows as [|r rows IH]; simpl; intros st st' Hall.
  - now intros [= <-].
  - inversion Hall; subst. intros H. apply rbind_Ok in H.
    destruct H as [st1 [Hr Hrest]].
    rewrite (IH _ _ H2 Hrest). eapply scan_row_keeps_day; eauto.
Qed.

(** A slot row files each of its slots under the day of the state. *)
Lemma scan_row_files st r st' a t s f :
  no_header r -> In (mk_cell (Some a)) (bookable r) ->
  strong_time a = Some t -> span_detail a = Some s -> last_char s = Ok f ->
  scan_row st r = Ok st' ->
  exists tm, dget (fst st) (snd st') = Some tm /\ has_field t f tm.
Proof.
  destruct st as [d m]. unfold scan_row, no_header. intros -> Hin Ht Hs Hf.
  destruct (bookable r) as [|c cells] eqn:Eb; [destruct Hin|].
  intros H. apply rbind_Ok in H. destruct H as [ts [Hc [= <-]]]. cbn [fst snd].
  assert (Hhf : has_field t f ts) by (eapply collect_slots_adds; eauto).
  destruct Hhf as [fm [Hg Hfm]].
  assert (Hnd : NoDup (keys ts)).
  { eapply collect_slots_NoDup; [|exact Hc]. constructor. }
  assert (Hst : exists tm, dget d (fold_left (store_slot d) ts m) = Some tm
                           /\ dget t tm = Some fm).
  { apply store_all_found; auto with dictdb. }
  destruct Hst as [tm [Hd Htm]].
  exists tm. split; auto. exists fm. auto.
Qed.

(** In the state of the scan, the current day is Montag as long as no day
    header has been seen; after a day header it is the stripped text of that
    header for all the rows up to the next header; and a slot row files its
    slots under the current day, which it leaves as it is. *)
Lemma scan_rows_day_context :
  (forall rows st,
     Forall no_header rows ->
     scan_rows rows (first_day, []) = Ok st -> fst st = "Montag")
  /\ (forall before hdr h hs following st0 st,
        head_cells hdr = h :: hs -> Forall no_header following ->
        scan_rows (before ++ hdr :: following) st0 = Ok st ->
        fst st = strip h)
  /\ (forall before r st0 st1 st2 a t s f,
        scan_rows before st0 = Ok st1 ->
        scan_rows (before ++ [r]) st0 = Ok st2 ->
        no_header r -> In (mk_cell (Some a)) (bookable r) ->
        strong_time a = Some t -> span_detail a = Some s ->
        last_char s = Ok f ->
        fst st2 = fst st1
        /\ exists tm, dget (fst st1) (snd st2) = Some tm /\ has_field t f tm).
Proof.
  split; [|split].
  - intros rows st Hall Hs. now rewrite (scan_rows_keep_day _ _ _ Hall Hs).
  - intros before hdr h hs following st0 st Hh Hall Hs.
    rewrite scan_rows_app in Hs. apply rbind_Ok in Hs.
    destruct Hs as [st1 [_ Hs]]. simpl in Hs.
    rewrite (scan_row_header st1 _ _ _ Hh) in Hs. simpl in Hs.
    now rewrite (scan_rows_keep_day _ _ _ Hall Hs).
  - intros before r st0 st1 st2 a t s f H1 H2 Hr Hin Ht Hs Hf.
    rewrite scan_rows_app, H1 in H2. simpl in H2.
    apply rbind_Ok in H2. destruct H2 as [st [Hrow [= ->]]].
    split; [eapply scan_row_keeps_day; eauto|].
    eapply scan_row_files; eauto.
Qed.

(** ** The clock and the log *)

Lemma stamped_widen (P Q : event -> Prop) lo hi lo' hi' te :
  (forall e, P e -> Q e) -> lo' <= lo -> hi <= hi' ->
  stamped P lo hi te -> stamped Q lo' hi' te.
Proof. unfold stamped. intros HPQ ? ? [? ?]. split; [lia | auto]. Qed.

Lemma bind_inv {A B : Type} (m : M A) (k : A -> M B) w r w' :
  bind m k w = (r, w') ->
  (exists a w1, m w = (Returns a, w1) /\ k a w1 = (r, w'))
  \/ (exists e, m w = (Raises e, w') /\ r = Raises e)
  \/ (m w = (Running, w') /\ r = Running).
Proof.
  unfold bind. destruct (m w) as [[a|e|] w1].
  - intros H. left. eauto.
  - intros [= <- <-]. right. left. eauto.
  - intros [= <- <-]. right. right. auto.
Qed.

Section Issues.
Variable P : event -> Prop.

Lemma issues_pure {A : Type} (m : M A) :
  (forall w, snd (m w) = w) -> issues P m.
Proof.
  intros Hm w r w' H. generalize (Hm w). rewrite H. simpl. intros ->.
  split; [lia|]. exists []. split; [reflexivity | constructor].
Qed.

Lemma issues_ret {A : Type} (a : A) : issues P (ret a).
Proof. now apply issues_pure. Qed.

Lemma issues_raise {A : Type} (e : exn) : issues P (@raise A e).
Proof. now apply issues_pure. Qed.

Lemma issues_running {A : Type} : issues P (@running A).
Proof. now apply issues_pure. Qed.

Lemma issues_time_time : issues P time_time.
Proof. now apply issues_pure. Qed.

Lemma issues_bind {A B : Type} (m : M A) (k : A -> M B) :
  issues P m -> (forall a, issues P (k a)) -> issues P (bind m k).
Proof.
  intros Hm Hk w r w' H.
  apply bind_inv in H. destruct H as [(a & w1 & H1 & H2)|[(e & H1 & _)|[H1 _]]].
  - destruct (Hm _ _ _ H1) as [Hn1 (new1 & Hl1 & Hs1)].
    destruct (Hk a _ _ _ H2) as [Hn2 (new2 & Hl2 & Hs2)].
    split; [lia|]. exists (new2 ++ new1)%list. split.
    + rewrite Hl2, Hl1. now rewrite app_assoc.
    + apply Forall_app. split.
      * eapply Forall_impl; [|exact Hs2].
        intros te. apply stamped_widen; auto; lia.
      * eapply Forall_impl; [|exact Hs1].
        intros te. apply stamped_widen; auto; lia.
  - exact (Hm _ _ _ H1).
  - exact (Hm _ _ _ H1).
Qed.

Lemma issues_emit (e : event) : P e -> issues P (emit e).
Proof.
  intros He w r w'. unfold emit. intros [= <- <-]. simpl.
  split; [lia|]. exists [(now w, e)]. split; [reflexivity|].
  constructor; [|constructor]. split; simpl; [lia | exact He].
Qed.

Lemma issues_advance (ms : Z) : 0 <= ms -> issues P (advance ms).
Proof.
  intros Hms w r w'. unfold advance. intros [= <- <-]. simpl.
  split; [lia|]. exists []. split; [reflexivity | constructor].
Qed.

Lemma issues_elapse : issues P elapse.
Proof.
  intros w r w'. unfold elapse. destruct (delays w) as [|d ds].
  - intros [= <- <-]. split; [lia|]. exists [].
    split; [reflexivity | constructor].
  - intros [= <- <-]. simpl. split; [lia|]. exists [].
    split; [reflexivity | constructor].
Qed.

Lemma issues_next_answer : issues P next_answer.
Proof.
  intros w r w'. unfold next_answer. destruct (browser w) as [|b bs].
  - intros [= <- <-]. split; [lia|]. exists [].
    split; [reflexivity | constructor].
  - intros [= <- <-]. simpl. split; [lia|]. exists [].
    split; [reflexivity | constructor].
Qed.

Lemma issues_act (e : event) : P e -> issues P (act e).
Proof.
  intros He. unfold act.
  apply issues_bind; [now apply issues_emit | intros _].
  apply issues_bind; [apply issues_elapse | intros _].
  apply issues_bind; [apply issues_next_answer | intros ok].
  destruct ok; [apply issues_ret | apply issues_raise].
Qed.

Lemma issues_is_visible (s : string) :
  P (LocVisible s) -> issues P (is_visible s).
Proof.
  intros He. unfold is_visible.
  apply issues_bind; [now apply issues_emit | intros _].
  apply issues_bind; [apply issues_elapse | intros _].
  apply issues_next_answer.
Qed.

Lemma issues_goto (url : link) : P (Goto url) -> issues P (goto url).
Proof.
  intros He. destruct url; simpl; [now apply issues_act|].
  apply issues_bind; [now apply issues_emit | intros; apply issues_raise].
Qed.

Lemma issues_time_sleep (s : Z) : P (Sleep s) -> issues P (time_sleep s).
Proof.
  intros He. unfold time_sleep.
  apply issues_bind; [now apply issues_emit | intros _].
  apply issues_bind; [apply issues_advance; lia | intros _].
  apply issues_elapse.
Qed.
End Issues.

(** ** [fill_form] *)

Ltac step_issues :=
  lazymatch goal with
  | |- issues _ (bind _ _) => apply issues_bind; [|intros]
  | |- issues _ (act _) => apply issues_act
  | |- issues _ (is_visible _) => apply issues_is_visible
  | |- issues _ (goto _) => apply issues_goto
  | |- issues _ (time_sleep _) => apply issues_time_sleep
  | |- issues _ (ret _) => apply issues_ret
  | |- issues _ running => apply issues_running
  | |- issues _ time_time => apply issues_time_time
  | |- issues _ (if ?b then _ else _) => destruct b
  end.

Ltac distinct_events :=
  unfold not_final, idle, pay_and_book, submit_form, confirm_box;
  repeat split; discriminate.

Lemma issues_fill_personal_details person index :
  issues not_final (fill_personal_details person index).
Proof.
  unfold fill_personal_details. cbv zeta.
  repeat step_issues; distinct_events.
Qed.

Lemma issues_enter_data self booking_url :
  issues not_final (enter_data self booking_url).
Proof.
  unfold enter_data.
  repeat first [apply issues_fill_personal_details | step_issues];
    distinct_events.
Qed.

Lemma issues_review_wait ticks t0 review_time_s :
  issues idle (review_wait ticks t0 review_time_s).
Proof.
  induction ticks as [|n IH]; simpl.
  - apply issues_running.
  - repeat first [exact IH | step_issues]; distinct_events.
Qed.

Lemma issues_wind_up : issues idle wind_up.
Proof. unfold wind_up. repeat step_issues; distinct_events. Qed.

(** When the wait returns, more than the review time has gone by. *)
Lemma review_wait_elapsed ticks t0 review_time_s :
  forall w w',
    review_wait ticks t0 review_time_s w = (Returns tt, w') ->
    review_time_s * 1000 < now w' - t0.
Proof.
  induction ticks as [|n IH]; simpl; intros w w'; [discriminate|].
  unfold bind at 1. unfold time_time at 1.
  destruct (review_time_s * 1000 <? now w - t0) eqn:E.
  - unfold ret. intros [= <-]. now apply Z.ltb_lt in E.
  - intros H. apply bind_inv in H.
    destruct H as [(a & w1 & _ & H)|[(e & _ & He)|[_ He]]];
      [eauto | discriminate | discriminate].
Qed.

(** With a tick for every second of the review time and two to spare, the
    wait comes to its end. *)
Lemma review_wait_returns ticks t0 review_time_s :
  forall w,
    (0 < ticks)%nat ->
    review_time_s * 1000 - (now w - t0) < (Z.of_nat ticks - 1) * 1000 ->
    exists w', review_wait ticks t0 review_time_s w = (Returns tt, w').
Proof.
  induction ticks as [|n IH]; intros w Hpos Hneed; [lia|].
  simpl. unfold bind at 1. unfold time_time at 1.
  destruct (review_time_s * 1000 <? now w - t0) eqn:E.
  - unfold ret. eauto.
  - apply Z.ltb_ge in E.
    destruct (time_sleep 1 w) as [r w1] eqn:Es.
    assert (Hs : r = Returns tt /\ now w + 1000 <= now w1).
    { revert Es. unfold time_sleep, bind, emit, advance, elapse. simpl.
      destruct (delays w); intros [= <- <-]; simpl; split; auto; lia. }
    destruct Hs as [-> Hn]. unfold bind. rewrite Es.
    apply IH; lia.
Qed.

Lemma issues_final_click :
  issues late_event (act pay_and_book ;; wind_up).
Proof.
  unfold wind_up. repeat step_issues; unfold late_event; distinct_events.
Qed.

(** A run of [fill_form] falls into three phases around the reading [t0] of
    the clock: what is logged up to [t0] has no final click in it, what is
    logged during the wait is neither click nor confirmation tick, and what
    is logged afterwards comes more than the review time after [t0]. *)
Lemma fill_form_phases self ticks booking_url review_time_s w r w' :
  fill_form self ticks booking_url review_time_s w = (r, w') ->
  exists t0 early mid late,
    log w' = (late ++ mid ++ early ++ log w)%list
    /\ Forall (stamped not_final (now w) t0) early
    /\ Forall (stamped idle t0 (now w')) mid
    /\ Forall (stamped late_event (t0 + review_time_s * 1000 + 1) (now w'))
         late.
Proof.
  unfold fill_form. intros H.
  apply bind_inv in H. destruct H as [(a1 & w1 & H1 & H)|Hstop].
  2: { assert (Hrun : exists r1, enter_data self booking_url w = (r1, w'))
         by (destruct Hstop as [(e & He & _)|[He _]]; eauto).
       destruct Hrun as [r1 Hrun].
       destruct (issues_enter_data _ _ _ _ _ Hrun) as [Hn (new1 & Hl & Hs)].
       exists (now w'), new1, [], []. simpl. auto. }
  destruct (issues_enter_data _ _ _ _ _ H1) as [Hn1 (new1 & Hl1 & Hs1)].
  assert (Ibox : issues not_final (act confirm_box))
    by (apply issues_act; distinct_events).
  apply bind_inv in H. destruct H as [(a2 & w2 & H2 & H)|Hstop].
  2: { assert (Hrun : exists r2, act confirm_box w1 = (r2, w'))
         by (destruct Hstop as [(e & He & _)|[He _]]; eauto).
       destruct Hrun as [r2 Hrun].
       destruct (Ibox _ _ _ Hrun) as [Hn (new2 & Hl & Hs)].
       exists (now w'), (new2 ++ new1)%list, [], []. simpl.
       rewrite Hl, Hl1, app_assoc. repeat split; auto.
       apply Forall_app. split.
       - eapply Forall_impl; [|exact Hs].
         intros te. apply stamped_widen; auto; lia.
       - eapply Forall_impl; [|exact Hs1].
         intros te. apply stamped_widen; auto; lia. }
  destruct (Ibox _ _ _ H2) as [Hn2 (new2 & Hl2 & Hs2)].
  assert (Hearly : Forall (stamped not_final (now w) (now w2))
                     (new2 ++ new1)%list).
  { apply Forall_app. split.
    - eapply Forall_impl; [|exact Hs2].
      intros te. apply stamped_widen; auto; lia.
    - eapply Forall_impl; [|exact Hs1].
      intros te. apply stamped_widen; auto; lia. }
  unfold bind at 1 in H. unfold time_time at 1 in H.
  apply bind_inv in H. destruct H as [(a3 & w3 & H3 & H)|Hstop].
  2: { assert (Hrun : exists r3,
                  review_wait ticks (now w2) review_time_s w2 = (r3, w'))
         by (destruct Hstop as [(e & He & _)|[He _]]; eauto).
       destruct Hrun as [r3 Hrun].
       destruct (issues_review_wait _ _ _ _ _ _ Hrun)
         as [Hn (new3 & Hl & Hs)].
       exists (now w2), (new2 ++ new1)%list, new3, []. simpl.
       rewrite Hl, Hl2, Hl1, <- !app_assoc. repeat split; auto. }
  destruct (issues_review_wait _ _ _ _ _ _ H3) as [Hn3 (new3 & Hl3 & Hs3)].
  destruct a3. apply review_wait_elapsed in H3.
  destruct (issues_final_click _ _ _ H) as [Hn4 (new4 & Hl4 & Hs4)].
  exists (now w2), (new2 ++ new1)%list, new3, new4.
  rewrite Hl4, Hl3, Hl2, Hl1, <- !app_assoc. repeat split; auto.
  - eapply Forall_impl; [|exact Hs3].
    intros te. apply stamped_widen; auto; lia.
  - eapply Forall_impl; [|exact Hs4].
    intros te. apply stamped_widen; auto; lia.
Qed.

Lemma stamped_In (P : event -> Prop) lo hi l t e :
  Forall (stamped P lo hi) l -> In (t, e) l -> lo <= t <= hi /\ P e.
Proof.
  intros Hall Hin. rewrite Forall_forall in Hall. exact (Hall _ Hin).
Qed.

(** C4. In every run of [fill_form], whatever the review time, the click on
    [kostenpflichtig buchen] is issued no sooner than [review_time_s] seconds
    after the third page was entered, be that taken as the click on
    [verbindlich anmelden] or as the tick of the confirmation box. *)
Theorem final_click_after_review_time :
  forall self ticks booking_url review_time_s w r w' new e t_enter t_click,
    fill_form self ticks booking_url review_time_s w = (r, w') ->
    log w' = (new ++ log w)%list ->
    e = submit_form \/ e = confirm_box ->
    In (t_enter, e) new ->
    In (t_click, pay_and_book) new ->
    review_time_s * 1000 <= t_click - t_enter.
Proof.
  intros self ticks booking_url review_time_s w r w' new e t_enter t_click
    Hrun Hlog He Henter Hclick.
  destruct (fill_form_phases _ _ _ _ _ _ _ Hrun)
    as (t0 & early & mid & late & Hl & Hearly & Hmid & Hlate).
  assert (Hnew : new = (late ++ mid ++ early)%list).
  { apply (app_inv_tail (log w)). rewrite <- Hlog, Hl.
    now rewrite <- !app_assoc. }
  subst new.
  assert (Hc : In (t_click, pay_and_book) late).
  { apply in_app_or in Hclick. destruct Hclick as [H|H]; auto.
    apply in_app_or in H. destruct H as [H|H]; exfalso.
    - destruct (stamped_In _ _ _ _ _ _ Hmid H) as [_ [Hp _]]. now apply Hp.
    - destruct (stamped_In _ _ _ _ _ _ Hearly H) as [_ Hp]. now apply Hp. }
  assert (Hen : In (t_enter, e) early).
  { apply in_app_or in Henter. destruct Henter as [H|H].
    - exfalso. destruct (stamped_In _ _ _ _ _ _ Hlate H) as [_ [Hs Hb]].
      destruct He; auto.
    - apply in_app_or in H. destruct H as [H|H]; auto.
      exfalso. destruct (stamped_In _ _ _ _ _ _ Hmid H) as [_ [_ [Hs Hb]]].
      destruct He; auto. }
  destruct (stamped_In _ _ _ _ _ _ Hlate Hc) as [Htc _].
  destruct (stamped_In _ _ _ _ _ _ Hearly Hen) as [Hte _].
  lia.
Qed.

(** *** A browser that refuses nothing *)

Lemma completes_ret {A : Type} (a : A) : completes (ret a).
Proof. intros w Hb. exists a, w. auto. Qed.

Lemma completes_bind {A B : Type} (m : M A) (k : A -> M B) :
  completes m -> (forall a, completes (k a)) -> completes (bind m k).
Proof.
  intros Hm Hk w Hb. destruct (Hm w Hb) as (a & w1 & H1 & Hb1).
  destruct (Hk a w1 Hb1) as (b & w2 & H2 & Hb2).
  exists b, w2. unfold bind. rewrite H1. auto.
Qed.

Lemma completes_emit e : completes (emit e).
Proof. intros w Hb. exists tt. eexists. split; [reflexivity | exact Hb]. Qed.

Lemma completes_advance ms : completes (advance ms).
Proof. intros w Hb. exists tt. eexists. split; [reflexivity | exact Hb]. Qed.

Lemma completes_elapse : completes elapse.
Proof.
  intros w Hb. exists tt. unfold elapse.
  destruct (delays w); eexists; (split; [reflexivity | exact Hb]).
Qed.

Lemma completes_act e : completes (act e).
Proof.
  intros w Hb. exists tt. unfold act, bind, emit, elapse, next_answer.
  destruct (delays w); simpl; rewrite Hb; simpl; eexists;
    (split; [reflexivity | first [exact Hb | reflexivity]]).
Qed.

Lemma completes_is_visible s : completes (is_visible s).
Proof.
  intros w Hb. exists true. unfold is_visible, bind, emit, elapse, next_answer.
  destruct (delays w); simpl; rewrite Hb; simpl; eexists;
    (split; [reflexivity | first [exact Hb | reflexivity]]).
Qed.

Lemma completes_time_sleep s : completes (time_sleep s).
Proof.
  unfold time_sleep.
  apply completes_bind; [apply completes_emit | intros _].
  apply completes_bind; [apply completes_advance | intros _].
  apply completes_elapse.
Qed.

Ltac step_completes :=
  lazymatch goal with
  | |- completes (bind _ _) => apply completes_bind; [|intros]
  | |- completes (act _) => apply completes_act
  | |- completes (is_visible _) => apply completes_is_visible
  | |- completes (goto (Some _)) => apply completes_act
  | |- completes (time_sleep _) => apply completes_time_sleep
  | |- completes (ret _) => apply completes_ret
  | |- completes (if ?b then _ else _) => destruct b
  end.

Lemma completes_fill_personal_details person index :
  completes (fill_personal_details person index).
Proof. unfold fill_personal_details. cbv zeta. repeat step_completes. Qed.

Lemma completes_enter_data self url :
  completes (enter_data self (Some url)).
Proof.
  unfold enter_data.
  repeat first [apply completes_fill_personal_details | step_completes].
Qed.

Lemma completes_wind_up : completes wind_up.
Proof. unfold wind_up. repeat step_completes. Qed.

(** The wait does not touch the browser. *)
Lemma review_wait_browser ticks t0 review_time_s :
  forall w r w',
    review_wait ticks t0 review_time_s w = (r, w') -> browser w' = browser w.
Proof.
  induction ticks as [|n IH]; simpl; intros w r w'.
  - now intros [= _ <-].
  - unfold bind at 1. unfold time_time at 1.
    destruct (review_time_s * 1000 <? now w - t0); [now intros [= _ <-]|].
    unfold bind, time_sleep, bind, emit, advance, elapse. simpl.
    destruct (delays w); intros H; apply IH in H; exact H.
Qed.

(** With a link to go to, a browser that refuses nothing and a tick for
    every second of the review time and two to spare, [fill_form] runs to
    its end and has issued the final click. *)
Lemma fill_form_returns self ticks url review_time_s w :
  browser w = [] ->
  0 <= review_time_s < Z.of_nat ticks - 1 ->
  exists w' t,
    fill_form self ticks (Some url) review_time_s w = (Returns tt, w')
    /\ In (t, pay_and_book) (log w').
Proof.
  intros Hb Hticks. unfold fill_form.
  destruct (completes_enter_data self url w Hb) as ([] & w1 & H1 & Hb1).
  destruct (completes_act confirm_box w1 Hb1) as ([] & w2 & H2 & Hb2).
  assert (Hpos : (0 < ticks)%nat) by lia.
  assert (Hneed : review_time_s * 1000 - (now w2 - now w2)
                  < (Z.of_nat ticks - 1) * 1000) by lia.
  destruct (review_wait_returns ticks (now w2) review_time_s w2 Hpos Hneed)
    as [w3 H3].
  assert (Hb3 : browser w3 = []).
  { rewrite (review_wait_browser _ _ _ _ _ _ H3). exact Hb2. }
  destruct (completes_act pay_and_book w3 Hb3) as ([] & w4 & H4 & Hb4).
  assert (Hin : In (now w3, pay_and_book) (log w4)).
  { revert H4. unfold act, bind, emit, elapse, next_answer. simpl.
    destruct (delays w3); simpl; rewrite Hb3; simpl; intros [= <-]; simpl;
      now left. }
  destruct (completes_wind_up w4 Hb4) as ([] & w5 & H5 & Hb5).
  destruct (issues_wind_up _ _ _ H5) as [_ (new & Hl & _)].
  exists w5, (now w3). split.
  - unfold bind. rewrite H1, H2. unfold time_time. rewrite H3, H4. exact H5.
  - rewrite Hl. apply in_or_app. now right.
Qed.

(** ** [monitor_slots] *)

(** An attempt that raises ends the loop with that very exception, in the
    world the attempt left. *)
Lemma monitor_slots_propagates self polls ticks url day start_time
  refresh_interval_s review_time_s w e w' :
  attempt_booking self ticks url day start_time review_time_s w
  = (Raises e, w') ->
  monitor_slots self (S polls) ticks url day start_time refresh_interval_s
                review_time_s w
  = (Raises e, w').
Proof. intros H. simpl. unfold bind at 1. now rewrite H. Qed.

(** X10. The loop of [monitor_slots] has no normal exit: however many iterations
    are run, it does not return. *)
Lemma monitor_slots_never_returns self polls ticks url day start_time
  refresh_interval_s review_time_s :
  forall w,
    fst (monitor_slots self polls ticks url day start_time refresh_interval_s
                       review_time_s w) <> Returns tt.
Proof.
  induction polls as [|n IH]; intros w; simpl; [discriminate|].
  match goal with
  | |- fst (?m w) <> _ => destruct (m w) as [r w'] eqn:H
  end. simpl.
  apply bind_inv in H. destruct H as [(a & w1 & _ & H)|[(e & _ & ->)|[_ ->]]];
    [|discriminate|discriminate].
  apply bind_inv in H. destruct H as [(t0 & w2 & _ & H)|[(e & _ & ->)|[_ ->]]];
    [|discriminate|discriminate].
  apply bind_inv in H. destruct H as [(a3 & w3 & _ & H)|[(e & _ & ->)|[_ ->]]];
    [|discriminate|discriminate].
  specialize (IH w3). rewrite H in IH. exact IH.
Qed.

(** With a tick for every second of the interval and one to spare, the wait
    between two polls comes to its end. *)
Lemma refresh_wait_returns ticks t0 refresh_interval_s :
  forall w,
    (0 < ticks)%nat ->
    refresh_interval_s * 1000 - (now w - t0) <= (Z.of_nat ticks - 1) * 1000 ->
    exists w', refresh_wait ticks t0 refresh_interval_s w = (Returns tt, w').
Proof.
  induction ticks as [|n IH]; intros w Hpos Hneed; [lia|].
  simpl. unfold bind at 1. unfold time_time at 1.
  destruct (refresh_interval_s * 1000 - (now w - t0) <=? 0) eqn:E.
  - unfold ret. eauto.
  - apply Z.leb_gt in E.
    destruct (time_sleep 1 w) as [r w1] eqn:Es.
    assert (Hs : r = Returns tt /\ now w + 1000 <= now w1).
    { revert Es. unfold time_sleep, bind, emit, advance, elapse. simpl.
      destruct (delays w); intros [= <- <-]; simpl; split; auto; lia. }
    destruct Hs as [-> Hn]. unfold bind. rewrite Es.
    apply IH; lia.
Qed.

(** After an attempt that returns, that is after a booking, the loop waits
    and goes on polling. *)
Lemma monitor_slots_after_success self polls ticks url day start_time
  refresh_interval_s review_time_s w w1 w2 :
  attempt_booking self ticks url day start_time review_time_s w
  = (Returns tt, w1) ->
  refresh_wait ticks (now w1) refresh_interval_s w1 = (Returns tt, w2) ->
  monitor_slots self (S polls) ticks url day start_time refresh_interval_s
                review_time_s w
  = monitor_slots self polls ticks url day start_time refresh_interval_s
                  review_time_s w2.
Proof.
  intros Ha Hw. simpl. unfold bind at 1. rewrite Ha.
  unfold bind at 1. unfold time_time at 1.
  unfold bind at 1. now rewrite Hw.
Qed.

(** C1 does not hold of the code: a poll that fails ends [monitor_slots]
    with the exception of the poll. With the server answering 500, with the
    schedule missing from the page, or with nothing on offer on Monday, one
    request is sent, nothing is slept, and the answer scripted for the next
    poll, on which the slot is free, is never asked for. *)
Theorem monitor_slots_stops_on_failed_poll :
  let run first :=
    monitor_slots manager 3 100 overview_url "Montag" 15 60 30
                  (world_of [first; both_fields]) in
  run server_error
  = (Raises ConnectionError,
     mk_world 0 [Some both_fields] [] [] [(0, HttpGet overview_url)])
  /\ run no_schedule
     = (Raises (ValueError no_table_msg),
        mk_world 0 [Some both_fields] [] [] [(0, HttpGet overview_url)])
  /\ run tuesday_only
     = (Raises (ValueError (no_slot_msg "Montag" "15:00-16:00")),
        mk_world 0 [Some both_fields] [] [] [(0, HttpGet overview_url)]).
Proof. repeat split; vm_compute; reflexivity. Qed.

(** C2 does not hold of the code: after a booking the loop waits for the
    interval and polls again. With the slot on offer at two polls in a row
    and the server failing at the third, [fill_form] runs twice, the final
    click is issued twice, for link-a and then for link-b, and the loop ends
    only through the error of the third poll. *)
Theorem monitor_slots_books_twice :
  let end_of_run :=
    monitor_slots manager 3 100 overview_url "Montag" 15 60 30
                  (world_of [both_fields; one_field; server_error]) in
  fst end_of_run = Raises ConnectionError
  /\ launches (log (snd end_of_run)) = 2%nat
  /\ final_clicks (log (snd end_of_run)) = 2%nat
  /\ visited (log (snd end_of_run)) = [Some "link-a"; Some "link-b"].
Proof. vm_compute. repeat split. Qed.

Lemma fetch_available_slots_inner_nonempty_witness :
  fst (get_booking_link both_fields_slots "Montag" 15) <> Raise StopIteration.
Proof.
  apply (proj2 (fetch_available_slots_inner_nonempty
                  overview_url (world_of [both_fields]) both_fields_slots
                  (mk_world 0 [] [] [] [(0, HttpGet overview_url)])
                  eq_refl)).
Defined.

Lemma final_click_after_review_time_witness :
  let end_of_run := fill_form manager 10 (Some "link-a") 2 (world_of []) in
  In (0, submit_form) (log (snd end_of_run))
  /\ In (3000, pay_and_book) (log (snd end_of_run))
  /\ 2 * 1000 <= 3000 - 0.
Proof.
  assert (Henter : In (0, submit_form)
                     (log (snd (fill_form manager 10 (Some "link-a") 2
                                  (world_of []))))).
  { vm_compute. repeat (first [left; reflexivity | right]). }
  assert (Hclick : In (3000, pay_and_book)
                     (log (snd (fill_form manager 10 (Some "link-a") 2
                                  (world_of []))))).
  { vm_compute. repeat (first [left; reflexivity | right]). }
  split; [exact Henter | split; [exact Hclick|]].
  apply (final_click_after_review_time manager 10 (Some "link-a") 2
           (world_of [])
           (fst (fill_form manager 10 (Some "link-a") 2 (world_of [])))
           (snd (fill_form manager 10 (Some "link-a") 2 (world_of [])))
           (log (snd (fill_form manager 10 (Some "link-a") 2 (world_of []))))
           submit_form 0 3000).
  - apply surjective_pairing.
  - vm_compute. reflexivity.
  - left. reflexivity.
  - exact Henter.
  - exact Hclick.
Defined.

(** * Further properties *)

(** ** More on [get_booking_link] and [generate_time_slot] *)

(** X1. [get_booking_link] succeeds exactly on a day and time label that are
    present with at least one field, and then with the link of the first
    field; it fails with nothing but the [ValueError] for the day and label
    or, on an empty field mapping, [StopIteration]: no [KeyError] gets
    out. *)
Theorem get_booking_link_outcome :
  forall slots day hour,
    (forall l,
       fst (get_booking_link slots day hour) = Ok l
       <-> exists tm f rest,
             dget day (items slots) = Some tm
             /\ dget (generate_time_slot hour) tm = Some ((f, l) :: rest))
    /\ (forall e,
          fst (get_booking_link slots day hour) = Raise e ->
          e = ValueError (no_slot_msg day (generate_time_slot hour))
          \/ e = StopIteration).
Proof.
  intros slots day hour.
  destruct (dget day (items slots)) as [tm|] eqn:Hd.
  - rewrite (get_booking_link_present _ _ hour _ Hd). simpl.
    destruct (dget (generate_time_slot hour) tm) as [[|[f l0] fm]|] eqn:Et.
    + split.
      * intros l. split; [discriminate|].
        intros (tm' & f & rest & [= <-] & Ht). rewrite Et in Ht. discriminate.
      * intros e [= <-]. now right.
    + split.
      * intros l. split.
        -- intros [= <-]. exists tm, f, fm. auto.
        -- intros (tm' & f' & rest & [= <-] & Ht). rewrite Et in Ht.
           now injection Ht as _ -> _.
      * discriminate.
    + split.
      * intros l. split; [discriminate|].
        intros (tm' & f & rest & [= <-] & Ht). rewrite Et in Ht. discriminate.
      * intros e [= <-]. now left.
  - rewrite (get_booking_link_absent _ _ hour Hd). simpl. split.
    + intros l. split; [discriminate|].
      intros (tm' & f & rest & Hd' & _). discriminate.
    + intros e [= <-]. now left.
Qed.

Lemma get_booking_link_outcome_witness :
  fst (get_booking_link both_fields_slots "Dienstag" 20) = Ok (Some "link-c").
Proof.
  apply (proj1 (get_booking_link_outcome both_fields_slots "Dienstag" 20)).
  exists [("20:00-21:00", [("2", Some "link-c")])], "2", [].
  split; reflexivity.
Defined.

(** X2. [get_booking_link] never alters or removes an entry of the map and
    never changes the kind of the map; the map comes back as it was whenever
    it is a plain dict or the day is present. *)
Theorem get_booking_link_keeps_entries :
  forall slots day hour,
    (forall d tm,
       dget d (items slots) = Some tm ->
       dget d (items (snd (get_booking_link slots day hour))) = Some tm)
    /\ default_factory (snd (get_booking_link slots day hour))
       = default_factory slots
    /\ (default_factory slots = false \/ dget day (items slots) <> None ->
        snd (get_booking_link slots day hour) = slots).
Proof.
  intros slots day hour.
  destruct (dget day (items slots)) as [tm0|] eqn:Hd.
  - rewrite (get_booking_link_present _ _ hour _ Hd). simpl. auto.
  - rewrite (get_booking_link_absent _ _ hour Hd). simpl.
    destruct (default_factory slots) eqn:Hf; simpl.
    + split; [|split; [reflexivity|]].
      * intros d tm Hg. rewrite dget_dset_other; auto.
        intros ->. rewrite Hd in Hg. discriminate.
      * intros [H|H]; [discriminate | now elim H].
    + auto.
Qed.

Lemma get_booking_link_keeps_entries_witness :
  dget "Dienstag"
    (items (snd (get_booking_link both_fields_slots "Mittwoch" 20)))
  = Some [("20:00-21:00", [("2", Some "link-c")])]
  /\ snd (get_booking_link both_fields_slots "Montag" 9) = both_fields_slots.
Proof.
  split.
  - apply (proj1 (get_booking_link_keeps_entries both_fields_slots
                    "Mittwoch" 20)).
    reflexivity.
  - apply (proj2 (proj2 (get_booking_link_keeps_entries both_fields_slots
                           "Montag" 9))).
    right. discriminate.
Defined.

Lemma In_hours_0_98 hour : 0 <= hour <= 98 -> In hour hours_0_98.
Proof.
  intros H. unfold hours_0_98. apply in_map_iff.
  exists (Z.to_nat hour). split; [lia|]. apply in_seq. lia.
Qed.

Lemma generate_time_slot_0_98 hour :
  0 <= hour <= 98 ->
  generate_time_slot hour = time_slot_label hour
  /\ hour_of_label (generate_time_slot hour) = hour.
Proof.
  intros H. apply In_hours_0_98 in H.
  assert (Hall : forallb
                   (fun h =>
                      String.eqb (generate_time_slot h) (time_slot_label h)
                      && (hour_of_label (generate_time_slot h) =? h))
                   hours_0_98 = true) by (vm_compute; reflexivity).
  rewrite forallb_forall in Hall. specialize (Hall hour H).
  apply andb_true_iff in Hall. destruct Hall as [H1 H2].
  apply String.eqb_eq in H1. apply Z.eqb_eq in H2. auto.
Qed.

(** X3. For every hour from 0 to 98, which covers the hour 22 that the
    validation of the configuration lets through, the label has both hours on
    two digits, and two different hours never share a label. *)
Theorem generate_time_slot_injective :
  forall h1 h2,
    0 <= h1 <= 98 -> 0 <= h2 <= 98 ->
    generate_time_slot h1 = time_slot_label h1
    /\ (generate_time_slot h1 = generate_time_slot h2 -> h1 = h2).
Proof.
  intros h1 h2 H1 H2.
  destruct (generate_time_slot_0_98 h1 H1) as [Hl1 Hr1].
  destruct (generate_time_slot_0_98 h2 H2) as [_ Hr2].
  split; [exact Hl1|]. intros Heq. rewrite <- Hr1, <- Hr2. now rewrite Heq.
Qed.

Lemma generate_time_slot_injective_witness :
  generate_time_slot 22 = time_slot_label 22
  /\ (generate_time_slot 22 = generate_time_slot 9 -> 22 = 9).
Proof. apply (generate_time_slot_injective 22 9); lia. Defined.

(** ** More on the parser *)

(** X5. Given a response, [fetch_available_slots] raises the [ValueError] of the
    missing schedule exactly when the status is 200 and the page has no
    schedule container. *)
Theorem fetch_available_slots_no_schedule :
  forall url w resp rest,
    http w = Some resp :: rest ->
    (fst (fetch_available_slots url w) = Raises (ValueError no_table_msg)
     <-> status_code resp = 200 /\ table_body resp = None).
Proof.
  intros url w resp rest Hh.
  rewrite (fetch_available_slots_reply url w resp rest Hh).
  unfold parse_response.
  destruct (status_code resp =? 200) eqn:E; simpl.
  - apply Z.eqb_eq in E. destruct (table_body resp) as [rows|].
    + destruct (scan_rows rows (first_day, [])) as [st|e] eqn:Es; simpl.
      * split; [discriminate | intros [_ H]; discriminate].
      * split; [|intros [_ H]; discriminate].
        intros [= ->]. apply scan_rows_error in Es. destruct Es; discriminate.
    + split; auto.
  - apply Z.eqb_neq in E. split; [discriminate | tauto].
Qed.

Lemma fetch_available_slots_no_schedule_witness :
  fst (fetch_available_slots overview_url (world_of [no_schedule]))
  = Raises (ValueError no_table_msg).
Proof.
  apply (fetch_available_slots_no_schedule overview_url
           (world_of [no_schedule]) no_schedule [] eq_refl).
  split; reflexivity.
Defined.

(** *** Keys stay unique *)

Lemma dget_None_keys {V : Type} k (d : dict V) :
  dget k d = None <-> ~ In k (keys d).
Proof.
  induction d as [|[k' v'] d IH]; simpl; [tauto|].
  destruct (String.eqb k k') eqn:E.
  - apply String.eqb_eq in E. split; [discriminate|]. intros H.
    elim H. left. now symmetry.
  - apply String.eqb_neq in E. rewrite IH. split.
    + intros H [Hk|Hk]; [congruence | contradiction].
    + intros H Hk. apply H. now right.
Qed.

Lemma keys_dset {V : Type} k (v : V) d k' :
  In k' (keys (dset k v d)) <-> k' = k \/ In k' (keys d).
Proof.
  split; [apply keys_dset_In|].
  induction d as [|[k0 v0] d IH]; simpl.
  - intros [->|[]]. now left.
  - destruct (String.eqb k k0) eqn:E; simpl.
    + apply String.eqb_eq in E. subst k0. intros [->|[->|H]]; auto.
    + intros [->|[->|H]]; auto.
Qed.

Lemma values_unique_dset {V : Type} k (v : dict V) d :
  NoDup (keys v) -> values_unique d -> values_unique (dset k v d).
Proof.
  intros Hv Hd k' v' Hin.
  destruct (In_dset _ _ _ _ _ Hin) as [[_ ->]|H]; eauto.
Qed.

Lemma default_dict_unique {V : Type} k (d : dict (dict V)) :
  values_unique d -> NoDup (keys (default_dict (dget k d))).
Proof.
  intros Hd. destruct (dget k d) as [x|] eqn:E; simpl.
  - apply dget_In in E. eauto.
  - constructor.
Qed.

Lemma collect_slots_unique cells :
  forall ts ts',
    NoDup (keys ts) -> values_unique ts ->
    collect_slots cells ts = Ok ts' ->
    NoDup (keys ts') /\ values_unique ts'.
Proof.
  induction cells as [|c cells IH]; simpl; intros ts ts' Hnd Hv.
  - now intros [= <-].
  - destruct (link_tag c) as [a|]; [|now apply IH].
    destruct (strong_time a) as [t|]; [|discriminate].
    destruct (span_detail a) as [s|]; [|discriminate].
    destruct (last_char s) as [f|e]; simpl; [|discriminate].
    apply IH; [auto with dictdb|].
    apply values_unique_dset; auto.
    apply NoDup_dset. now apply default_dict_unique.
Qed.

Lemma store_slot_unique d m entry :
  NoDup (keys (snd entry)) -> unique_keys m ->
  unique_keys (store_slot d m entry).
Proof.
  intros He [Hnd Hm]. unfold store_slot. split; [auto with dictdb|].
  intros d' tm Hin.
  destruct (In_dset _ _ _ _ _ Hin) as [[_ ->]|H]; [|exact (Hm _ _ H)].
  assert (Hold : NoDup (keys (default_dict (dget d m)))
                 /\ forall t fm, In (t, fm) (default_dict (dget d m)) ->
                                 NoDup (keys fm)).
  { destruct (dget d m) as [tm0|] eqn:E; simpl.
    - apply dget_In in E. exact (Hm _ _ E).
    - split; [constructor | intros ? ? []]. }
  destruct Hold as [Hk Hv]. split; [auto with dictdb|].
  intros t fm Hin'.
  destruct (In_dset _ _ _ _ _ Hin') as [[_ ->]|H]; eauto.
Qed.

Lemma store_all_unique d ts :
  forall m,
    values_unique ts -> unique_keys m ->
    unique_keys (fold_left (store_slot d) ts m).
Proof.
  induction ts as [|[t fm] ts IH]; simpl; intros m Hts Hm; auto.
  apply IH.
  - intros k v Hin. apply (Hts k v). now right.
  - apply store_slot_unique; auto. simpl. apply (Hts t fm). now left.
Qed.

Lemma scan_row_unique st r st' :
  unique_keys (snd st) -> scan_row st r = Ok st' -> unique_keys (snd st').
Proof.
  destruct st as [d m]. unfold scan_row. cbn [snd]. intros Hm.
  destruct (head_cells r); [|now intros [= <-]].
  destruct (bookable r) as [|c cells]; [now intros [= <-]|].
  intros H. apply rbind_Ok in H. destruct H as [ts [Hc [= <-]]]. cbn [snd].
  apply store_all_unique; auto.
  eapply collect_slots_unique; [| |exact Hc]; [constructor | intros ? ? []].
Qed.

Lemma scan_rows_unique rows :
  forall st st',
    unique_keys (snd st) -> scan_rows rows st = Ok st' ->
    unique_keys (snd st').
Proof.
  induction rows as [|r rows IH]; simpl; intros st st' Hm.
  - now intros [= <-].
  - intros H. apply rbind_Ok in H. destruct H as [st1 [Hr Hrest]].
    eapply IH; [|exact Hrest]. eapply scan_row_unique; eauto.
Qed.

(** The map that [fetch_available_slots] returns is a [defaultdict] in which
    no day, no time label under a day and no field under a time label occurs
    twice. *)
Lemma fetch_available_slots_unique_keys :
  forall url w slots w',
    fetch_available_slots url w = (Returns slots, w') ->
    default_factory slots = true /\ unique_keys (items slots).
Proof.
  intros url w slots w' Hf.
  apply fetch_available_slots_returns in Hf. destruct Hf as [resp Hp].
  unfold parse_response in Hp.
  destruct (negb (status_code resp =? 200)); [discriminate|].
  destruct (table_body resp) as [rows|]; [|discriminate].
  apply rbind_Ok in Hp. destruct Hp as [st [Hs [= <-]]]. simpl.
  split; [reflexivity|].
  eapply scan_rows_unique; [|exact Hs]. simpl.
  split; [constructor | intros ? ? []].
Qed.

Lemma fetch_available_slots_unique_keys_example :
  default_factory both_fields_slots = true
  /\ unique_keys (items both_fields_slots).
Proof.
  apply (fetch_available_slots_unique_keys overview_url
           (world_of [both_fields]) both_fields_slots
           (mk_world 0 [] [] [] [(0, HttpGet overview_url)]) eq_refl).
Defined.

(** *** Cells that share a time and a field key *)

Lemma field_link_dset t f t0 f0 (l : link) (ts : time_map) :
  (t0, f0) <> (t, f) ->
  field_link t f (dset t0 (dset f0 l (default_dict (dget t0 ts))) ts)
  = field_link t f ts.
Proof.
  intros Hne. unfold field_link.
  destruct (string_dec t t0) as [->|Ht].
  - rewrite dget_dset_same.
    assert (Hf : f <> f0) by (intros ->; now apply Hne).
    rewrite dget_dset_other by exact Hf.
    destruct (dget t0 ts); reflexivity.
  - now rewrite dget_dset_other by exact Ht.
Qed.

Lemma collect_slots_other t f cells :
  forall ts ts',
    Forall (fun c => cell_key c <> Some (t, f)) cells ->
    collect_slots cells ts = Ok ts' ->
    field_link t f ts' = field_link t f ts.
Proof.
  induction cells as [|c cells IH]; simpl; intros ts ts' Hall.
  - now intros [= <-].
  - inversion Hall as [|? ? Hc Hrest]; subst. unfold cell_key in Hc.
    destruct (link_tag c) as [a|]; [|now apply IH].
    destruct (strong_time a) as [t0|]; [|discriminate].
    destruct (span_detail a) as [s|]; [|discriminate].
    destruct (last_char s) as [f0|e]; simpl; [|discriminate].
    intros H. rewrite (IH _ _ Hrest H). apply field_link_dset. congruence.
Qed.

Lemma collect_slots_app a :
  forall b ts,
    collect_slots (a ++ b) ts
    = (ts1 <-? collect_slots a ts ;; collect_slots b ts1).
Proof.
  induction a as [|c a IH]; simpl; intros b ts; auto.
  destruct (link_tag c) as [x|]; auto.
  destruct (strong_time x); auto. destruct (span_detail x); auto.
  destruct (last_char s0); simpl; auto.
Qed.

(** X6. The field of a cell is filed under the last character of its label, so
    that of the cells of a row that share the time label and that character
    only the last one keeps its link: whatever comes before it in the row,
    the link found afterwards under that time and character is its own. *)
Theorem collect_slots_last_wins :
  forall before a following t s f ts ts',
    strong_time a = Some t -> span_detail a = Some s -> last_char s = Ok f ->
    Forall (fun c => cell_key c <> Some (t, f)) following ->
    collect_slots (before ++ mk_cell (Some a) :: following) ts = Ok ts' ->
    field_link t f ts' = Some (href a).
Proof.
  intros before a following t s f ts ts' Ht Hs Hf Hall H.
  rewrite collect_slots_app in H. apply rbind_Ok in H.
  destruct H as [ts1 [_ H]]. simpl in H. rewrite Ht, Hs, Hf in H. simpl in H.
  rewrite (collect_slots_other _ _ _ _ _ Hall H).
  unfold field_link. rewrite dget_dset_same. apply dget_dset_same.
Qed.

Lemma collect_slots_last_wins_witness :
  field_link "15:00-16:00" "2" [("15:00-16:00", [("2", Some "link-12")])]
  = Some (href field12).
Proof.
  apply (collect_slots_last_wins [mk_cell (Some field2)] field12 []
           "15:00-16:00" "Feld 12" "2" []
           [("15:00-16:00", [("2", Some "link-12")])]);
    try reflexivity.
  constructor.
Defined.

(** *** What a slot row changes in the map *)

Lemma store_all_other_day d d2 ts :
  forall m : dict time_map,
    d2 <> d -> dget d2 (fold_left (store_slot d) ts m) = dget d2 m.
Proof.
  induction ts as [|[t fm] ts IH]; simpl; intros m Hne; auto.
  rewrite IH by exact Hne. unfold store_slot. now apply dget_dset_other.
Qed.

Lemma store_all_other_label d t ts :
  forall m : dict time_map,
    ~ In t (keys ts) ->
    lookup2 d t (fold_left (store_slot d) ts m) = lookup2 d t m.
Proof.
  induction ts as [|[t0 fm0] ts IH]; simpl; intros m Hni; auto.
  assert (Hne : t <> t0) by (intros ->; apply Hni; now left).
  rewrite IH by (intros H; apply Hni; now right).
  unfold lookup2, store_slot. rewrite dget_dset_same. simpl.
  rewrite dget_dset_other by exact Hne.
  destruct (dget d m); reflexivity.
Qed.

(** X7. A row of slots under the day [d] leaves the other days of the map as
    they are; for each time label it offers, it puts its own fields in the
    place of whatever the map held for [d] at that time, without merging;
    and it leaves the other time labels of [d] as they are. *)
Theorem scan_row_replaces :
  forall d (m : dict time_map) r d' m',
    no_header r ->
    scan_row (d, m) r = Ok (d', m') ->
    exists ts,
      collect_slots (bookable r) [] = Ok ts
      /\ (forall d2, d2 <> d -> dget d2 m' = dget d2 m)
      /\ (forall t fm, dget t ts = Some fm -> lookup2 d t m' = Some fm)
      /\ (forall t, dget t ts = None -> lookup2 d t m' = lookup2 d t m).
Proof.
  intros d m r d' m' Hr. unfold scan_row, no_header in *. rewrite Hr.
  destruct (bookable r) as [|c cells] eqn:Eb.
  - intros [= <- <-]. exists []. simpl. repeat split; auto. discriminate.
  - intros H. apply rbind_Ok in H. destruct H as [ts [Hc [= <- <-]]].
    exists ts. split; [exact Hc|].
    assert (Hnd : NoDup (keys ts)).
    { eapply collect_slots_NoDup; [|exact Hc]. constructor. }
    split; [|split].
    + intros d2 Hne. now apply store_all_other_day.
    + intros t fm Hg.
      assert (Hst : exists tm, dget d (fold_left (store_slot d) ts m) = Some tm
                               /\ dget t tm = Some fm).
      { apply store_all_found; auto with dictdb. }
      destruct Hst as [tm [Hd Ht]]. unfold lookup2. now rewrite Hd.
    + intros t Hg. apply store_all_other_label. now apply dget_None_keys.
Qed.

Lemma scan_row_replaces_witness :
  lookup2 "Montag" "20:00-21:00"
    [("Montag", [("20:00-21:00", [("2", Some "link-c")])])]
  = Some [("2", Some "link-c")].
Proof.
  destruct (scan_row_replaces "Montag"
              [("Montag", [("20:00-21:00", [("9", Some "old")])])]
              tuesday_row "Montag"
              [("Montag", [("20:00-21:00", [("2", Some "link-c")])])]
              eq_refl eq_refl) as (ts & Hc & _ & Hrep & _).
  apply Hrep. injection Hc as <-. reflexivity.
Defined.

(** ** More on the clock and the log *)

Lemma issues_weaken {A : Type} (P Q : event -> Prop) (m : M A) :
  (forall e, P e -> Q e) -> issues P m -> issues Q m.
Proof.
  intros HPQ Hm w r w' H. destruct (Hm _ _ _ H) as [Hn (new & Hl & Hs)].
  split; auto. exists new. split; auto.
  eapply Forall_impl; [|exact Hs]. intros te. apply stamped_widen; auto; lia.
Qed.

(** A browser call logs its event at once, whatever becomes of it. *)
Lemma act_inv e w r w' :
  act e w = (r, w') ->
  log w' = (now w, e) :: log w /\ now w <= now w'
  /\ (r = Returns tt \/ r = Raises PlaywrightError).
Proof.
  unfold act, bind, emit, elapse, next_answer, ret, raise. simpl.
  destruct (delays w); simpl; destruct (browser w) as [|[|] bs]; simpl;
    intros [= <- <-]; simpl; repeat split; auto; lia.
Qed.

Lemma time_sleep_inv s w r w' :
  time_sleep s w = (r, w') ->
  r = Returns tt /\ log w' = (now w, Sleep s) :: log w
  /\ now w + Z.max 0 s * 1000 <= now w'.
Proof.
  unfold time_sleep, bind, emit, advance, elapse. simpl.
  destruct (delays w); simpl; intros [= <- <-]; simpl; repeat split; lia.
Qed.

Lemma requests_get_inv url w r w' :
  requests_get url w = (r, w') ->
  log w' = (now w, HttpGet url) :: log w /\ now w <= now w'
  /\ ((exists resp rest, http w = Some resp :: rest /\ r = Returns resp)
      \/ r = Raises RequestException).
Proof.
  unfold requests_get, bind, emit, elapse, next_reply, ret, raise. simpl.
  destruct (delays w); simpl; destruct (http w) as [|[resp|] rest]; simpl;
    intros [= <- <-]; simpl; repeat split; eauto; lia.
Qed.

Ltac page_events :=
  unfold page_event, form_event, pay_and_book, submit_form, confirm_box;
  simpl; auto; try discriminate.

Lemma issues_page_fill_personal_details url person index :
  issues (page_event url) (fill_personal_details person index).
Proof.
  unfold fill_personal_details. cbv zeta. repeat step_issues; page_events.
Qed.

Lemma issues_page_enter_data self url :
  issues (page_event url) (enter_data self url).
Proof.
  unfold enter_data.
  repeat first [apply issues_page_fill_personal_details | step_issues];
    page_events.
Qed.

Lemma page_event_form_event url e : page_event url e -> form_event url e.
Proof. destruct e; simpl; auto. Qed.

Lemma issues_sleeps_review_wait ticks t0 review_time_s :
  issues (fun e => e = Sleep 1) (review_wait ticks t0 review_time_s).
Proof.
  induction ticks as [|n IH]; simpl.
  - apply issues_running.
  - repeat first [exact IH | step_issues]; reflexivity.
Qed.

Lemma issues_sleeps_refresh_wait ticks t0 refresh_interval_s :
  issues (fun e => e = Sleep 1) (refresh_wait ticks t0 refresh_interval_s).
Proof.
  induction ticks as [|n IH]; simpl.
  - apply issues_running.
  - repeat first [exact IH | step_issues]; reflexivity.
Qed.

Lemma issues_form_fill_form self ticks url review_time_s :
  issues (form_event url) (fill_form self ticks url review_time_s).
Proof.
  unfold fill_form, wind_up.
  repeat first
    [ apply (issues_weaken (page_event url) (form_event url));
      [apply page_event_form_event | apply issues_page_enter_data]
    | apply (issues_weaken (fun e => e = Sleep 1) (form_event url));
      [intros ? ->; exact I | apply issues_sleeps_review_wait]
    | step_issues ];
    page_events.
Qed.

(** An attempt sends its one request first; anything else it does, it does
    in [fill_form] for a link that [get_booking_link] found in the map
    parsed from the answer. *)
Lemma attempt_booking_inv self ticks url day start_time review_time_s w r w' :
  attempt_booking self ticks url day start_time review_time_s w = (r, w') ->
  exists w1,
    log w1 = (now w, HttpGet url) :: log w /\ now w <= now w1
    /\ ((w' = w1 /\ exists e, r = Raises e)
        \/ exists resp rest slots l,
             http w = Some resp :: rest
             /\ parse_response resp = Ok slots
             /\ fst (get_booking_link slots day start_time) = Ok l
             /\ fill_form self ticks l review_time_s w1 = (r, w')).
Proof.
  unfold attempt_booking, fetch_available_slots. intros H.
  apply bind_inv in H.
  destruct H as [(slots & w1 & H1 & H)|[(e & H1 & ->)|[H1 _]]].
  - apply bind_inv in H1.
    destruct H1 as [(resp & w0 & Hreq & Hp)|[(e & Hreq & [=])|[Hreq [=]]]].
    destruct (requests_get_inv _ _ _ _ Hreq)
      as (Hl & Hn & [(resp' & rest & Hh & [= <-])|[=]]).
    destruct (parse_response resp) as [s|e] eqn:Ep; simpl in Hp;
      [|discriminate].
    unfold ret in Hp. injection Hp as -> ->.
    exists w1. split; [exact Hl | split; [exact Hn|]].
    destruct (fst (get_booking_link slots day start_time)) as [l|e] eqn:Eg;
      simpl in H.
    + right. exists resp, rest, slots, l. auto.
    + left. injection H as <- <-. eauto.
  - apply bind_inv in H1.
    destruct H1 as [(resp & w0 & Hreq & Hp)|[(e' & Hreq & [= <-])|[Hreq [=]]]].
    + destruct (requests_get_inv _ _ _ _ Hreq) as (Hl & Hn & _).
      destruct (parse_response resp) as [s|e'] eqn:Ep; simpl in Hp;
        [discriminate|].
      injection Hp as <- <-. exists w0. eauto 6.
    + destruct (requests_get_inv _ _ _ _ Hreq) as (Hl & Hn & _).
      exists w'. eauto 6.
  - apply bind_inv in H1.
    destruct H1 as [(resp & w0 & Hreq & Hp)|[(e' & Hreq & [=])|[Hreq _]]].
    + destruct (parse_response resp); discriminate.
    + destruct (requests_get_inv _ _ _ _ Hreq) as (_ & _ & [(? & ? & _ & [=])|[=]]).
Qed.

(** X8. Whatever an attempt issues besides its request, a browser launch, a
    navigation, a click, was issued for a link that [get_booking_link] found
    for the day and hour in the map parsed from the answer to the request;
    and the browser is sent nowhere but to that link. *)
Theorem attempt_booking_browser_needs_link :
  forall self ticks url day start_time review_time_s w r w' new t e,
    attempt_booking self ticks url day start_time review_time_s w = (r, w') ->
    log w' = (new ++ log w)%list ->
    In (t, e) new -> is_get e = false ->
    exists resp rest slots l,
      http w = Some resp :: rest
      /\ parse_response resp = Ok slots
      /\ fst (get_booking_link slots day start_time) = Ok l
      /\ forall u, e = Goto u -> u = l.
Proof.
  intros self ticks url day start_time review_time_s w r w' new t e
    Hrun Hlog Hin Hget.
  destruct (attempt_booking_inv _ _ _ _ _ _ _ _ _ Hrun)
    as (w1 & Hl1 & Hn1 & [[-> _]|(resp & rest & slots & l & Hh & Hp & Hg & Hf)]).
  - rewrite Hl1 in Hlog.
    assert (new = [(now w, HttpGet url)]).
    { apply (app_inv_tail (log w)). now rewrite <- Hlog. }
    subst new. destruct Hin as [[= <- <-]|[]]. discriminate.
  - exists resp, rest, slots, l. repeat split; auto.
    destruct (issues_form_fill_form _ _ _ _ _ _ _ Hf) as [_ (newf & Hlf & Hsf)].
    rewrite Hlf, Hl1 in Hlog.
    assert (new = (newf ++ [(now w, HttpGet url)])%list).
    { apply (app_inv_tail (log w)). rewrite <- Hlog.
      now rewrite <- app_assoc. }
    subst new. apply in_app_or in Hin. destruct Hin as [Hin|[[= <- <-]|[]]];
      [|discriminate].
    destruct (stamped_In _ _ _ _ _ _ Hsf Hin) as [_ Hfe].
    intros u ->. exact Hfe.
Qed.

Lemma attempt_booking_browser_needs_link_witness :
  exists resp rest slots l,
    http (world_of [both_fields]) = Some resp :: rest
    /\ parse_response resp = Ok slots
    /\ fst (get_booking_link slots "Montag" 15) = Ok l
    /\ forall u, Goto (Some "link-a") = Goto u -> u = l.
Proof.
  apply (attempt_booking_browser_needs_link manager 10 overview_url
           "Montag" 15 2 (world_of [both_fields])
           (fst (attempt_booking manager 10 overview_url "Montag" 15 2
                   (world_of [both_fields])))
           (snd (attempt_booking manager 10 overview_url "Montag" 15 2
                   (world_of [both_fields])))
           (log (snd (attempt_booking manager 10 overview_url "Montag" 15 2
                        (world_of [both_fields]))))
           0 (Goto (Some "link-a"))).
  - apply surjective_pairing.
  - vm_compute. reflexivity.
  - vm_compute. repeat (first [left; reflexivity | right]).
  - reflexivity.
Defined.

(** ** More on [monitor_slots] *)

(** When the wait between two polls returns, the interval has gone by. *)
Lemma refresh_wait_elapsed ticks t0 refresh_interval_s :
  forall w w',
    refresh_wait ticks t0 refresh_interval_s w = (Returns tt, w') ->
    refresh_interval_s * 1000 <= now w' - t0.
Proof.
  induction ticks as [|n IH]; simpl; intros w w'; [discriminate|].
  unfold bind at 1. unfold time_time at 1.
  destruct (refresh_interval_s * 1000 - (now w - t0) <=? 0) eqn:E.
  - unfold ret. intros [= <-]. apply Z.leb_le in E. lia.
  - intros H. apply bind_inv in H.
    destruct H as [(a & w1 & _ & H)|[(e & _ & He)|[_ He]]];
      [eauto | discriminate | discriminate].
Qed.

Lemma get_times_app l1 l2 :
  get_times (l1 ++ l2) = (get_times l1 ++ get_times l2)%list.
Proof. unfold get_times. now rewrite filter_app, map_app. Qed.

Lemma get_times_none (P : event -> Prop) lo hi l :
  (forall e, P e -> is_get e = false) ->
  Forall (stamped P lo hi) l -> get_times l = [].
Proof.
  intros HP Hall. induction Hall as [|[t e] l [_ He] _ IH]; auto.
  unfold get_times in *. simpl in *. now rewrite (HP _ He).
Qed.

Lemma form_event_not_get url e : form_event url e -> is_get e = false.
Proof. destruct e; simpl; tauto. Qed.

Lemma sleep_not_get e : e = Sleep 1 -> is_get e = false.
Proof. now intros ->. Qed.

Lemma spaced_snoc d t0 l :
  spaced d l -> Forall (fun t => t0 + d <= t) l -> spaced d (l ++ [t0]).
Proof.
  induction l as [|t2 rest IH]; simpl; auto.
  intros [H2 Hrest] Hall. inversion Hall as [|? ? Ht2 Hall']; subst.
  split; [|auto].
  destruct rest as [|t1 rest']; simpl; auto.
Qed.

(** The requests of a run of the loop are all sent at or after its start,
    each at least the interval after the one before. *)
Lemma monitor_slots_requests self polls ticks url day start_time
  refresh_interval_s review_time_s :
  forall w r w',
    monitor_slots self polls ticks url day start_time refresh_interval_s
                  review_time_s w = (r, w') ->
    exists new,
      log w' = (new ++ log w)%list
      /\ Forall (fun t => now w <= t) (get_times new)
      /\ spaced (refresh_interval_s * 1000) (get_times new).
Proof.
  induction polls as [|n IH]; simpl; intros w r w' H.
  - injection H as _ <-. exists []. simpl. auto.
  - apply bind_inv in H.
    assert (Hone : forall r1 w1,
               attempt_booking self ticks url day start_time review_time_s w
               = (r1, w1) ->
               now w <= now w1
               /\ exists new1, log w1 = (new1 ++ log w)%list
                               /\ get_times new1 = [now w]).
    { intros r1 w1 Ha.
      destruct (attempt_booking_inv _ _ _ _ _ _ _ _ _ Ha)
        as (w0 & Hl0 & Hn0 & [[-> _]|(resp & rest & slots & l & _ & _ & _ & Hf)]).
      - split; [exact Hn0|]. exists [(now w, HttpGet url)]. auto.
      - destruct (issues_form_fill_form _ _ _ _ _ _ _ Hf)
          as [Hn (newf & Hlf & Hsf)].
        split; [lia|]. exists (newf ++ [(now w, HttpGet url)])%list. split.
        + rewrite Hlf, Hl0. now rewrite <- app_assoc.
        + rewrite get_times_app.
          now rewrite (get_times_none _ _ _ _ (form_event_not_get l) Hsf). }
    assert (Hstop : forall r1,
               attempt_booking self ticks url day start_time review_time_s w
               = (r1, w') ->
               exists new,
                 log w' = (new ++ log w)%list
                 /\ Forall (fun t => now w <= t) (get_times new)
                 /\ spaced (refresh_interval_s * 1000) (get_times new)).
    { intros r1 Ha. destruct (Hone _ _ Ha) as [_ (new1 & Hl1 & Hg1)].
      exists new1. rewrite Hg1. simpl. repeat split; auto.
      constructor; [lia | constructor]. }
    destruct H as [(a & w1 & H1 & H)|[(e & H1 & _)|[H1 _]]]; eauto.
    destruct (Hone _ _ H1) as [Hn1 (new1 & Hl1 & Hg1)].
    unfold bind at 1 in H. unfold time_time at 1 in H.
    apply bind_inv in H.
    assert (Hwait : forall r2 w2,
               refresh_wait ticks (now w1) refresh_interval_s w1 = (r2, w2) ->
               now w1 <= now w2
               /\ exists new2, log w2 = (new2 ++ log w1)%list
                               /\ get_times new2 = []).
    { intros r2 w2 Hw.
      destruct (issues_sleeps_refresh_wait _ _ _ _ _ _ Hw)
        as [Hn (new2 & Hl2 & Hs2)].
      split; [exact Hn|]. exists new2. split; [exact Hl2|].
      apply (get_times_none _ _ _ _ sleep_not_get Hs2). }
    assert (Hstop2 : forall r2,
               refresh_wait ticks (now w1) refresh_interval_s w1 = (r2, w') ->
               exists new,
                 log w' = (new ++ log w)%list
                 /\ Forall (fun t => now w <= t) (get_times new)
                 /\ spaced (refresh_interval_s * 1000) (get_times new)).
    { intros r2 Hw. destruct (Hwait _ _ Hw) as [_ (new2 & Hl2 & Hg2)].
      exists (new2 ++ new1)%list. rewrite get_times_app, Hg2, Hg1. simpl.
      rewrite Hl2, Hl1, app_assoc. repeat split; auto.
      constructor; [lia | constructor]. }
    destruct H as [(a2 & w2 & H2 & H)|[(e & H2 & _)|[H2 _]]]; eauto.
    destruct a2. destruct (Hwait _ _ H2) as [Hn2 (new2 & Hl2 & Hg2)].
    apply refresh_wait_elapsed in H2.
    destruct (IH _ _ _ H) as (new3 & Hl3 & Hall3 & Hsp3).
    exists (new3 ++ new2 ++ new1)%list.
    rewrite !get_times_app, Hg2, Hg1. simpl.
    split; [|split].
    + rewrite Hl3, Hl2, Hl1. now rewrite <- !app_assoc.
    + apply Forall_app. split.
      * eapply Forall_impl; [|exact Hall3]. simpl. intros; lia.
      * constructor; [lia | constructor].
    + apply spaced_snoc; auto.
      eapply Forall_impl; [|exact Hall3]. simpl. intros; lia.
Qed.

(** X9. However long [monitor_slots] runs and however it ends, two requests in
    a row to the overview page are at least [refresh_interval_s] seconds
    apart. *)
Theorem monitor_slots_polls_spaced :
  forall self polls ticks url day start_time refresh_interval_s review_time_s
         w r w' new,
    monitor_slots self polls ticks url day start_time refresh_interval_s
                  review_time_s w = (r, w') ->
    log w' = (new ++ log w)%list ->
    spaced (refresh_interval_s * 1000) (get_times new).
Proof.
  intros self polls ticks url day start_time refresh_interval_s review_time_s
    w r w' new Hrun Hlog.
  destruct (monitor_slots_requests _ _ _ _ _ _ _ _ _ _ _ Hrun)
    as (new' & Hl & _ & Hsp).
  assert (new = new').
  { apply (app_inv_tail (log w)). now rewrite <- Hlog. }
  now subst.
Qed.

Lemma monitor_slots_polls_spaced_witness :
  spaced (60 * 1000) [101000; 0].
Proof.
  apply (monitor_slots_polls_spaced manager 2 100 overview_url "Montag" 15
           60 30 (world_of [both_fields; one_field])
           (fst (monitor_slots manager 2 100 overview_url "Montag" 15 60 30
                   (world_of [both_fields; one_field])))
           (snd (monitor_slots manager 2 100 overview_url "Montag" 15 60 30
                   (world_of [both_fields; one_field])))
           (log (snd (monitor_slots manager 2 100 overview_url "Montag" 15
                        60 30 (world_of [both_fields; one_field]))))).
  - apply surjective_pairing.
  - vm_compute. reflexivity.
Defined.

(** ** More on [fill_form] *)

Lemma ends_with_act e : ends_with e (act e).
Proof.
  intros w a w' H. destruct (act_inv _ _ _ _ H) as (Hl & _ & _).
  exists (now w), [(now w, e)]. split; [exact Hl | now left].
Qed.

Lemma ends_with_bind {A B : Type} (P : event -> Prop) e
  (m : M A) (k : A -> M B) :
  issues P m -> (forall a, ends_with e (k a)) -> ends_with e (bind m k).
Proof.
  intros Hm Hk w b w' H. apply bind_inv in H.
  destruct H as [(a & w1 & H1 & H2)|[(x & _ & [=])|[_ [=]]]].
  destruct (Hm _ _ _ H1) as [_ (new1 & Hl1 & _)].
  destruct (Hk a _ _ _ H2) as (t & new2 & Hl2 & Hin).
  exists t, (new2 ++ new1)%list. split.
  - rewrite Hl2, Hl1. now rewrite app_assoc.
  - apply in_or_app. now left.
Qed.

Lemma enter_data_submits self url : ends_with submit_form (enter_data self url).
Proof.
  unfold enter_data.
  repeat (apply (ends_with_bind (page_event url));
          [ first [ apply issues_page_fill_personal_details
                  | apply issues_goto; page_events
                  | apply issues_act; page_events ]
          | intros _ ]).
  apply ends_with_act.
Qed.

(** The end of [fill_form], from the final click on. *)
Lemma final_phase_inv w r w' :
  (act pay_and_book ;; wind_up) w = (r, w') ->
  exists closes sleeps,
    log w' = (closes ++ sleeps ++ (now w, pay_and_book) :: log w)%list
    /\ Forall (fun te => snd te = Sleep 10) sleeps
    /\ Forall (stamped is_close (now w + 10000) (now w')) closes
    /\ now w <= now w'
    /\ (r = Returns tt ->
        exists t1 t2 t3,
          sleeps = [(t1, Sleep 10)]
          /\ closes = [(t3, CloseBrowser); (t2, CloseContext)]
          /\ t2 <= t3).
Proof.
  intros H. apply bind_inv in H.
  destruct H as [([] & w1 & H1 & H)|Hstop].
  2: { assert (Hrun : exists r1, act pay_and_book w = (r1, w') /\ r <> Returns tt)
         by (destruct Hstop as [(e & He & ->)|[He ->]]; eexists;
             (split; [exact He | discriminate])).
       destruct Hrun as (r1 & Hrun & Hr).
       destruct (act_inv _ _ _ _ Hrun) as (Hl & Hn & _).
       exists [], []. simpl. repeat split; auto. intros; contradiction. }
  destruct (act_inv _ _ _ _ H1) as (Hl1 & Hn1 & _).
  unfold wind_up in H. apply bind_inv in H.
  destruct H as [([] & w2 & H2 & H)|[(e & H2 & _)|[H2 _]]];
    [ | apply time_sleep_inv in H2; destruct H2 as [Hr _]; discriminate
      | apply time_sleep_inv in H2; destruct H2 as [Hr _]; discriminate ].
  destruct (time_sleep_inv _ _ _ _ H2) as (_ & Hl2 & Hn2).
  apply bind_inv in H.
  destruct H as [([] & w3 & H3 & H)|Hstop].
  2: { assert (Hrun : exists r1, act CloseContext w2 = (r1, w') /\ r <> Returns tt)
         by (destruct Hstop as [(e & He & ->)|[He ->]]; eexists;
             (split; [exact He | discriminate])).
       destruct Hrun as (r1 & Hrun & Hr).
       destruct (act_inv _ _ _ _ Hrun) as (Hl & Hn & _).
       exists [(now w2, CloseContext)], [(now w1, Sleep 10)].
       rewrite Hl, Hl2, Hl1. simpl. repeat split; auto; try lia.
       - constructor; [|constructor]. split; simpl; [lia | now left].
       - intros; contradiction. }
  destruct (act_inv _ _ _ _ H3) as (Hl3 & Hn3 & _).
  destruct (act_inv _ _ _ _ H) as (Hl4 & Hn4 & _).
  exists [(now w3, CloseBrowser); (now w2, CloseContext)], [(now w1, Sleep 10)].
  rewrite Hl4, Hl3, Hl2, Hl1. simpl. repeat split; auto; try lia.
  - constructor; [split; simpl; [lia | now right]|].
    constructor; [split; simpl; [lia | now left] | constructor].
  - intros _. exists (now w1), (now w2), (now w3). auto.
Qed.

(** The shape of what a run of [fill_form] logs: the events of the first
    two pages and the confirmation tick, then the ticks of the wait; and,
    if the wait was outlasted, the final click, with the form submitted and
    the box ticked before it, the sleep of ten seconds and the closing. *)
Lemma fill_form_trace self ticks url review_time_s w r w' :
  fill_form self ticks url review_time_s w = (r, w') ->
  exists early waits tail,
    log w' = (tail ++ waits ++ early ++ log w)%list
    /\ Forall (stamped (page_event url) (now w) (now w')) early
    /\ Forall (fun te => snd te = Sleep 1) waits
    /\ (tail = [] /\ r <> Returns tt
        \/ exists t_s t_b t_c closes sleeps,
             In (t_s, submit_form) early /\ In (t_b, confirm_box) early
             /\ t_s <= t_b <= t_c
             /\ tail = (closes ++ sleeps ++ [(t_c, pay_and_book)])%list
             /\ Forall (fun te => snd te = Sleep 10) sleeps
             /\ Forall (stamped is_close (t_c + 10000) (now w')) closes
             /\ (r = Returns tt ->
                 exists t1 t2 t3,
                   sleeps = [(t1, Sleep 10)]
                   /\ closes = [(t3, CloseBrowser); (t2, CloseContext)]
                   /\ t2 <= t3)).
Proof.
  unfold fill_form. intros H.
  assert (Ibox : issues (page_event url) (act confirm_box))
    by (apply issues_act; page_events).
  assert (Hsnd : forall lo hi l,
             Forall (stamped (fun e => e = Sleep 1) lo hi) l ->
             Forall (fun te => snd te = Sleep 1) l).
  { intros lo hi l Hall. eapply Forall_impl; [|exact Hall].
    intros te [_ Hte]. exact Hte. }
  apply bind_inv in H. destruct H as [([] & w1 & H1 & H)|Hstop].
  2: { assert (Hrun : exists r1, enter_data self url w = (r1, w')
                                 /\ r <> Returns tt)
         by (destruct Hstop as [(e & He & ->)|[He ->]]; eexists;
             (split; [exact He | discriminate])).
       destruct Hrun as (r1 & Hrun & Hr).
       destruct (issues_page_enter_data _ _ _ _ _ Hrun)
         as [Hn (new1 & Hl & Hs)].
       exists new1, [], []. simpl.
       split; [exact Hl | split; [exact Hs | split; [constructor | now left]]]. }
  destruct (issues_page_enter_data _ _ _ _ _ H1) as [Hn1 (new1 & Hl1 & Hs1)].
  destruct (enter_data_submits _ _ _ _ _ H1) as (t_s & new1' & Hl1' & Hsub).
  assert (new1' = new1).
  { apply (app_inv_tail (log w)). now rewrite <- Hl1, <- Hl1'. }
  subst new1'.
  destruct (stamped_In _ _ _ _ _ _ Hs1 Hsub) as [Hts _]. simpl in Hts.
  apply bind_inv in H. destruct H as [([] & w2 & H2 & H)|Hstop].
  2: { assert (Hrun : exists r2, act confirm_box w1 = (r2, w')
                                 /\ r <> Returns tt)
         by (destruct Hstop as [(e & He & ->)|[He ->]]; eexists;
             (split; [exact He | discriminate])).
       destruct Hrun as (r2 & Hrun & Hr).
       destruct (Ibox _ _ _ Hrun) as [Hn (new2 & Hl & Hs)].
       exists (new2 ++ new1)%list, [], []. simpl.
       rewrite Hl, Hl1, app_assoc.
       split; [reflexivity | split; [|split; [constructor | now left]]].
       apply Forall_app. split.
       - eapply Forall_impl; [|exact Hs].
         intros te. apply stamped_widen; auto; lia.
       - eapply Forall_impl; [|exact Hs1].
         intros te. apply stamped_widen; auto; lia. }
  destruct (act_inv _ _ _ _ H2) as (Hl2 & Hn2 & _).
  unfold bind at 1 in H. unfold time_time at 1 in H.
  apply bind_inv in H.
  assert (Hearly : forall hi, now w2 <= hi ->
             Forall (stamped (page_event url) (now w) hi)
                    ((now w1, confirm_box) :: new1)).
  { intros hi Hhi. constructor.
    - split; simpl; [lia | exact I].
    - eapply Forall_impl; [|exact Hs1].
      intros te. apply stamped_widen; auto; lia. }
  destruct H as [([] & w3 & H3 & H)|Hstop].
  2: { assert (Hrun : exists r3,
                  review_wait ticks (now w2) review_time_s w2 = (r3, w')
                  /\ r <> Returns tt)
         by (destruct Hstop as [(e & He & ->)|[He ->]]; eexists;
             (split; [exact He | discriminate])).
       destruct Hrun as (r3 & Hrun & Hr).
       destruct (issues_sleeps_review_wait _ _ _ _ _ _ Hrun)
         as [Hn (new3 & Hl & Hs)].
       exists ((now w1, confirm_box) :: new1), new3, []. simpl.
       rewrite Hl, Hl2, Hl1.
       split; [reflexivity | split; [apply Hearly; lia | split; [eauto|]]].
       now left. }
  destruct (issues_sleeps_review_wait _ _ _ _ _ _ H3)
    as [Hn3 (new3 & Hl3 & Hs3)].
  destruct (final_phase_inv _ _ _ H)
    as (closes & sleeps & Hl4 & Hsl & Hcl & Hn4 & Hret).
  exists ((now w1, confirm_box) :: new1), new3, 
         (closes ++ sleeps ++ [(now w3, pay_and_book)])%list.
  split; [|split; [|split]].
  - rewrite Hl4, Hl3, Hl2, Hl1. simpl. rewrite <- !app_assoc. reflexivity.
  - apply Hearly. lia.
  - eauto.
  - right. exists t_s, (now w1), (now w3), closes, sleeps.
    repeat split; auto; try lia.
    + now right.
    + now left.
Qed.

Lemma new_log_unique (w w' : world) (new new' : list (Z * event)) :
  log w' = (new ++ log w)%list -> log w' = (new' ++ log w)%list -> new = new'.
Proof. intros H1 H2. apply (app_inv_tail (log w)). now rewrite <- H1. Qed.

Lemma page_event_not_pay url : ~ page_event url pay_and_book.
Proof. unfold page_event, pay_and_book. intros H. now apply H. Qed.

(** Where the final click can be in what [fill_form] has logged. *)
Lemma trace_click_inv url lo hi early waits tail t :
  Forall (stamped (page_event url) lo hi) early ->
  Forall (fun te => snd te = Sleep 1) waits ->
  In (t, pay_and_book) (tail ++ waits ++ early)%list ->
  In (t, pay_and_book) tail.
Proof.
  intros He Hw Hin. apply in_app_or in Hin. destruct Hin as [H|H]; auto.
  exfalso. apply in_app_or in H. destruct H as [H|H].
  - rewrite Forall_forall in Hw. specialize (Hw _ H). discriminate.
  - destruct (stamped_In _ _ _ _ _ _ He H) as [_ Hp].
    now apply (page_event_not_pay url).
Qed.

Lemma tail_click_inv closes sleeps lo hi t t_c :
  Forall (fun te => snd te = Sleep 10) sleeps ->
  Forall (stamped is_close lo hi) closes ->
  In (t, pay_and_book) (closes ++ sleeps ++ [(t_c, pay_and_book)])%list ->
  t = t_c.
Proof.
  intros Hs Hc Hin. apply in_app_or in Hin. destruct Hin as [H|H].
  - destruct (stamped_In _ _ _ _ _ _ Hc H) as [_ [Hp|Hp]]; discriminate.
  - apply in_app_or in H. destruct H as [H|[[= <-]|[]]]; auto.
    rewrite Forall_forall in Hs. specialize (Hs _ H). discriminate.
Qed.

(** X11. In every run of [fill_form], a click on [kostenpflichtig buchen] comes
    only after the form was submitted with [verbindlich anmelden] and the
    confirmation box was ticked, in this order. *)
Theorem fill_form_click_needs_submit :
  forall self ticks url review_time_s w r w' new t_click,
    fill_form self ticks url review_time_s w = (r, w') ->
    log w' = (new ++ log w)%list ->
    In (t_click, pay_and_book) new ->
    exists t_submit t_box,
      In (t_submit, submit_form) new /\ In (t_box, confirm_box) new
      /\ t_submit <= t_box <= t_click.
Proof.
  intros self ticks url review_time_s w r w' new t_click Hrun Hlog Hin.
  destruct (fill_form_trace _ _ _ _ _ _ _ Hrun)
    as (early & waits & tail & Hl & He & Hw & Htail).
  rewrite !app_assoc in Hl. rewrite (new_log_unique _ _ _ _ Hlog Hl) in *.
  rewrite <- !app_assoc in Hin.
  apply (trace_click_inv _ _ _ _ _ _ _ He Hw) in Hin.
  destruct Htail as [[-> _]|(t_s & t_b & t_c & closes & sleeps & Hs & Hb & Ht
                             & -> & Hsl & Hcl & _)]; [destruct Hin|].
  apply (tail_click_inv _ _ _ _ _ _ Hsl Hcl) in Hin. subst t_click.
  exists t_s, t_b. repeat split; try lia.
  - apply in_or_app. now right.
  - apply in_or_app. now right.
Qed.

(** X12. In every run of [fill_form], the context and the browser are closed
    only after the final click, and no sooner than ten seconds after it. *)
Theorem fill_form_closes_after_click :
  forall self ticks url review_time_s w r w' new t e,
    fill_form self ticks url review_time_s w = (r, w') ->
    log w' = (new ++ log w)%list ->
    In (t, e) new -> is_close e ->
    exists t_click, In (t_click, pay_and_book) new /\ t_click + 10000 <= t.
Proof.
  intros self ticks url review_time_s w r w' new t e Hrun Hlog Hin Hclose.
  destruct (fill_form_trace _ _ _ _ _ _ _ Hrun)
    as (early & waits & tail & Hl & He & Hw & Htail).
  rewrite !app_assoc in Hl. rewrite (new_log_unique _ _ _ _ Hlog Hl) in *.
  rewrite <- !app_assoc in Hin.
  assert (Hin' : In (t, e) tail).
  { apply in_app_or in Hin. destruct Hin as [H|H]; auto.
    exfalso. apply in_app_or in H. destruct H as [H|H].
    - rewrite Forall_forall in Hw. specialize (Hw _ H). simpl in Hw.
      subst e. destruct Hclose; discriminate.
    - destruct (stamped_In _ _ _ _ _ _ He H) as [_ Hp].
      destruct Hclose; subst e; exact Hp. }
  destruct Htail as [[-> _]|(t_s & t_b & t_c & closes & sleeps & Hs & Hb & Ht
                             & -> & Hsl & Hcl & _)]; [destruct Hin'|].
  exists t_c. split.
  - apply in_or_app. left. apply in_or_app. left.
    apply in_or_app. right. apply in_or_app. right. now left.
  - apply in_app_or in Hin'. destruct Hin' as [H|H].
    + destruct (stamped_In _ _ _ _ _ _ Hcl H) as [Ht' _]. lia.
    + exfalso. apply in_app_or in H. destruct H as [H|[[= <- <-]|[]]].
      * rewrite Forall_forall in Hsl. specialize (Hsl _ H). simpl in Hsl.
        subst e. destruct Hclose; discriminate.
      * destruct Hclose; discriminate.
Qed.

Lemma final_clicks_app l1 l2 :
  final_clicks (l1 ++ l2) = (final_clicks l1 + final_clicks l2)%nat.
Proof. unfold final_clicks. now rewrite filter_app, length_app. Qed.

Lemma final_clicks_none (P : Z * event -> Prop) l :
  (forall te, P te -> is_final_click te = false) ->
  Forall P l -> final_clicks l = 0%nat.
Proof.
  intros HP Hall. induction Hall as [|te l Hte _ IH]; auto.
  unfold final_clicks in *. simpl. now rewrite (HP _ Hte).
Qed.

Lemma sleep_not_click s te : snd te = Sleep s -> is_final_click te = false.
Proof. destruct te as [t e]. unfold is_final_click. simpl. now intros ->. Qed.

(** X13. One run of [fill_form] clicks on [kostenpflichtig buchen] at most once,
    and exactly once when it returns. *)
Theorem fill_form_single_click :
  forall self ticks url review_time_s w r w' new,
    fill_form self ticks url review_time_s w = (r, w') ->
    log w' = (new ++ log w)%list ->
    (final_clicks new <= 1)%nat
    /\ (r = Returns tt -> final_clicks new = 1%nat).
Proof.
  intros self ticks url review_time_s w r w' new Hrun Hlog.
  destruct (fill_form_trace _ _ _ _ _ _ _ Hrun)
    as (early & waits & tail & Hl & He & Hw & Htail).
  rewrite !app_assoc in Hl. rewrite (new_log_unique _ _ _ _ Hlog Hl) in *.
  rewrite !final_clicks_app.
  rewrite (final_clicks_none _ waits (sleep_not_click 1) Hw).
  assert (Hearly : final_clicks early = 0%nat).
  { apply (final_clicks_none (stamped (page_event url) (now w) (now w')));
      auto.
    intros [t e] [_ Hp]. unfold is_final_click. simpl in *.
    destruct e; auto. simpl in Hp. now apply String.eqb_neq. }
  rewrite Hearly.
  destruct Htail as [[-> Hr]|(t_s & t_b & t_c & closes & sleeps & _ & _ & _
                              & -> & Hsl & Hcl & _)].
  - simpl. split; [lia | intros ->; now elim Hr].
  - rewrite !final_clicks_app.
    rewrite (final_clicks_none _ sleeps (sleep_not_click 10) Hsl).
    rewrite (final_clicks_none
               (stamped is_close (t_c + 10000) (now w')) closes);
      [simpl; split; [lia | reflexivity] | | exact Hcl].
    intros [t e] [_ [Hp|Hp]]; simpl in Hp; subst e; reflexivity.
Qed.

(** X14. When [fill_form] returns, the last things it did were, in this order,
    the final click, a sleep of ten seconds, the closing of the context and
    the closing of the browser. *)
Theorem fill_form_returns_closed :
  forall self ticks url review_time_s w w' new,
    fill_form self ticks url review_time_s w = (Returns tt, w') ->
    log w' = (new ++ log w)%list ->
    exists t_click t_sleep t_context t_browser rest,
      new = (t_browser, CloseBrowser) :: (t_context, CloseContext)
            :: (t_sleep, Sleep 10) :: (t_click, pay_and_book) :: rest
      /\ t_click + 10000 <= t_context <= t_browser.
Proof.
  intros self ticks url review_time_s w w' new Hrun Hlog.
  destruct (fill_form_trace _ _ _ _ _ _ _ Hrun)
    as (early & waits & tail & Hl & He & Hw & Htail).
  rewrite !app_assoc in Hl. rewrite (new_log_unique _ _ _ _ Hlog Hl) in *.
  destruct Htail as [[_ Hr]|(t_s & t_b & t_c & closes & sleeps & _ & _ & _
                             & -> & Hsl & Hcl & Hret)]; [now elim Hr|].
  destruct (Hret eq_refl) as (t1 & t2 & t3 & -> & -> & H23).
  exists t_c, t1, t2, t3, (waits ++ early)%list. split.
  - reflexivity.
  - inversion Hcl as [|? ? _ Hcl']; subst.
    inversion Hcl' as [|? ? [Ht2 _] _]; subst. simpl in Ht2. lia.
Qed.

Lemma sample_run_returns : fill_form manager 10 (Some "link-a") 2 (world_of [])
                           = (Returns tt, snd sample_run).
Proof. vm_compute. reflexivity. Qed.

Lemma sample_run_log :
  log (snd sample_run) = (log (snd sample_run) ++ log (world_of []))%list.
Proof. vm_compute. reflexivity. Qed.

Lemma fill_form_click_needs_submit_witness :
  exists t_submit t_box,
    In (t_submit, submit_form) (log (snd sample_run))
    /\ In (t_box, confirm_box) (log (snd sample_run))
    /\ t_submit <= t_box <= 3000.
Proof.
  apply (fill_form_click_needs_submit manager 10 (Some "link-a") 2
           (world_of []) (Returns tt) (snd sample_run)
           (log (snd sample_run)) 3000
           sample_run_returns sample_run_log).
  vm_compute. repeat (first [left; reflexivity | right]).
Defined.

Lemma fill_form_closes_after_click_witness :
  exists t_click,
    In (t_click, pay_and_book) (log (snd sample_run))
    /\ t_click + 10000 <= 13000.
Proof.
  apply (fill_form_closes_after_click manager 10 (Some "link-a") 2
           (world_of []) (Returns tt) (snd sample_run)
           (log (snd sample_run)) 13000 CloseBrowser
           sample_run_returns sample_run_log).
  - vm_compute. repeat (first [left; reflexivity | right]).
  - right. reflexivity.
Defined.

Lemma fill_form_single_click_witness :
  final_clicks (log (snd sample_run)) = 1%nat.
Proof.
  apply (proj2 (fill_form_single_click manager 10 (Some "link-a") 2
                  (world_of []) (Returns tt) (snd sample_run)
                  (log (snd sample_run))
                  sample_run_returns sample_run_log)).
  reflexivity.
Defined.

Lemma fill_form_returns_closed_witness :
  exists t_click t_sleep t_context t_browser rest,
    log (snd sample_run)
    = (t_browser, CloseBrowser) :: (t_context, CloseContext)
      :: (t_sleep, Sleep 10) :: (t_click, pay_and_book) :: rest
    /\ t_click + 10000 <= t_context <= t_browser.
Proof.
  apply (fill_form_returns_closed manager 10 (Some "link-a") 2
           (world_of []) (snd sample_run) (log (snd sample_run))
           sample_run_returns sample_run_log).
Defined.

(** ** Validation of the configuration *)

(** *** Matching by derivatives *)

Lemma append_empty (s1 s2 : string) : s1 ++ s2 = "" -> s1 = "" /\ s2 = "".
Proof. destruct s1; simpl; [auto | discriminate]. Qed.

Lemma append_empty_r (s : string) : s ++ "" = s.
Proof. induction s as [|c s IH]; simpl; [reflexivity | now rewrite IH]. Qed.

Lemma append_assoc (s1 s2 s3 : string) : (s1 ++ s2) ++ s3 = s1 ++ s2 ++ s3.
Proof. induction s1 as [|c s1 IH]; simpl; [reflexivity | now rewrite IH]. Qed.

Lemma nullable_lang r : nullable r = true <-> lang r "".
Proof.
  split.
  - induction r; simpl; intros H; try discriminate.
    + constructor.
    + apply andb_true_iff in H. destruct H as [H1 H2].
      change "" with ("" ++ ""). constructor; auto.
    + apply orb_true_iff in H. destruct H as [H|H];
        [apply lang_alt_l | apply lang_alt_r]; auto.
    + constructor.
  - intros H. remember "" as s eqn:Es.
    induction H; simpl; auto; try discriminate.
    + apply append_empty in Es. destruct Es as [-> ->].
      rewrite IHlang1, IHlang2; auto.
    + rewrite IHlang; auto.
    + rewrite IHlang; auto. apply orb_true_r.
Qed.

Lemma deriv_sound c r : forall s, lang (deriv c r) s -> lang r (String c s).
Proof.
  induction r; simpl; intros s H.
  - inversion H.
  - inversion H.
  - destruct (p c) eqn:E; inversion H; subst. now constructor.
  - destruct (nullable r1) eqn:En.
    + inversion H as [| | | ? ? ? Hl | ? ? ? Hr | |]; subst.
      * inversion Hl as [| |? ? s1 s2 H1 H2| | | |]; subst.
        change (String c (s1 ++ s2)) with (String c s1 ++ s2).
        constructor; auto.
      * change (String c s) with ("" ++ String c s).
        constructor; auto. now apply nullable_lang.
    + inversion H as [| |? ? s1 s2 H1 H2| | | |]; subst.
      change (String c (s1 ++ s2)) with (String c s1 ++ s2).
      constructor; auto.
  - inversion H; subst; [apply lang_alt_l | apply lang_alt_r]; auto.
  - inversion H as [| |? ? s1 s2 H1 H2| | | |]; subst.
    change (String c (s1 ++ s2)) with (String c s1 ++ s2).
    constructor; auto.
Qed.

Lemma deriv_complete c r s' :
  lang r s' -> forall s, s' = String c s -> lang (deriv c r) s.
Proof.
  induction 1 as [ | p c0 Hp | r1 r2 s1 s2 H1 IH1 H2 IH2
                   | r1 r2 s0 H1 IH1 | r1 r2 s0 H2 IH2
                   | r1 | r1 s1 s2 H1 IH1 H2 IH2 ];
    intros s Es; simpl.
  - discriminate.
  - injection Es as -> <-. rewrite Hp. constructor.
  - destruct s1 as [|c1 s1']; simpl in Es.
    + apply nullable_lang in H1. rewrite H1. apply lang_alt_r. auto.
    + injection Es as -> <-.
      destruct (nullable r1); [apply lang_alt_l|]; constructor; auto.
  - apply lang_alt_l. auto.
  - apply lang_alt_r. auto.
  - discriminate.
  - destruct s1 as [|c1 s1']; simpl in Es.
    + apply (IH2 _ Es).
    + injection Es as -> <-. constructor; auto.
Qed.

(** The matcher finds exactly the strings of the expression. *)
Lemma fullmatch_lang s : forall r, fullmatch r s = true <-> lang r s.
Proof.
  induction s as [|c s IH]; intros r; simpl.
  - apply nullable_lang.
  - rewrite IH. split; [apply deriv_sound|].
    intros H. now apply (deriv_complete c r (String c s)).
Qed.

Lemma lang_class_inv p s :
  lang (Class p) s <-> exists c, s = String c "" /\ p c = true.
Proof.
  split.
  - intros H. inversion H; subst. eauto.
  - intros (c & -> & Hp). now constructor.
Qed.

Lemma lang_cat_inv r1 r2 s :
  lang (Cat r1 r2) s <-> exists s1 s2, s = s1 ++ s2 /\ lang r1 s1 /\ lang r2 s2.
Proof.
  split.
  - intros H. inversion H; subst. eauto.
  - intros (s1 & s2 & -> & H1 & H2). now constructor.
Qed.

Lemma lang_chr_inv c s : lang (Chr c) s <-> s = String c "".
Proof.
  unfold Chr. rewrite lang_class_inv. split.
  - intros (c' & -> & H). apply Ascii.eqb_eq in H. now subst.
  - intros ->. exists c. split; auto. apply Ascii.eqb_refl.
Qed.

Lemma lang_star_class p s : lang (Star (Class p)) s <-> all_chars p s = true.
Proof.
  split.
  - intros H. remember (Star (Class p)) as r eqn:Er.
    induction H; try discriminate; auto.
    injection Er as ->. apply lang_class_inv in H.
    destruct H as (c & -> & Hc). simpl. rewrite Hc. now apply IHlang2.
  - induction s as [|c s IH]; simpl; intros H; [constructor|].
    apply andb_true_iff in H. destruct H as [Hc Hs].
    change (String c s) with (String c "" ++ s).
    constructor; auto. now constructor.
Qed.

Lemma lang_plus_class p s :
  lang (Plus (Class p)) s <-> nonempty s = true /\ all_chars p s = true.
Proof.
  unfold Plus. rewrite lang_cat_inv. split.
  - intros (s1 & s2 & -> & H1 & H2). apply lang_class_inv in H1.
    destruct H1 as (c & -> & Hc). apply lang_star_class in H2. simpl.
    now rewrite Hc, H2.
  - destruct s as [|c s]; simpl; intros [Hn Ha]; [discriminate|].
    apply andb_true_iff in Ha. destruct Ha as [Hc Hs].
    exists (String c ""), s. repeat split.
    + now constructor.
    + now apply lang_star_class.
Qed.

Lemma fullmatch_email_shape :
  forall s, fullmatch email_re s = true <-> email_shape s.
Proof.
  intros s. rewrite fullmatch_lang. unfold email_re, email_shape.
  rewrite lang_cat_inv. split.
  - intros (l & s1 & -> & Hl & H1). apply lang_plus_class in Hl.
    apply lang_cat_inv in H1. destruct H1 as (a & s2 & -> & Ha & H2).
    apply lang_chr_inv in Ha. subst a.
    apply lang_cat_inv in H2. destruct H2 as (d & s3 & -> & Hd & H3).
    apply lang_plus_class in Hd.
    apply lang_cat_inv in H3. destruct H3 as (dot & t & -> & Hdot & Ht).
    apply lang_chr_inv in Hdot. subst dot. apply lang_plus_class in Ht.
    exists l, d, t. tauto.
  - intros (l & d & t & -> & Hl1 & Hl2 & Hd1 & Hd2 & Ht1 & Ht2).
    exists l, ("@" ++ d ++ "." ++ t). split; [reflexivity|].
    split; [now apply lang_plus_class|].
    apply lang_cat_inv. exists "@", (d ++ "." ++ t).
    split; [reflexivity | split; [now apply lang_chr_inv|]].
    apply lang_cat_inv. exists d, ("." ++ t).
    split; [reflexivity | split; [now apply lang_plus_class|]].
    apply lang_cat_inv. exists ".", t.
    split; [reflexivity | split; [now apply lang_chr_inv|]].
    now apply lang_plus_class.
Qed.

(** X18. The e-mail pattern accepts exactly the addresses made of a local part,
    an at sign, a domain label without a dot, a dot and a rest, the three
    parts non-empty and made of the characters of their class. *)
Theorem email_pattern_shape :
  forall s, fullmatch email_re s = true <-> email_shape s.
Proof. exact fullmatch_email_shape. Qed.

Lemma lang_eps_inv s : lang Eps s <-> s = "".
Proof. split; [intros H; now inversion H | intros ->; constructor]. Qed.

Lemma lang_rep_class p n :
  forall s,
    lang (Rep n (Class p)) s
    <-> String.length s = n /\ all_chars p s = true.
Proof.
  induction n as [|n IH]; intros s; simpl.
  - rewrite lang_eps_inv. split.
    + intros ->. auto.
    + destruct s; simpl; [auto | intros [[=] _]].
  - rewrite lang_cat_inv. split.
    + intros (s1 & s2 & -> & H1 & H2). apply lang_class_inv in H1.
      destruct H1 as (c & -> & Hc). apply IH in H2. destruct H2 as [<- Ha].
      simpl. now rewrite Hc, Ha.
    + destruct s as [|c s]; simpl; intros [Hl Ha]; [discriminate|].
      apply andb_true_iff in Ha. destruct Ha as [Hc Hs].
      exists (String c ""), s. repeat split.
      * now constructor.
      * apply IH. split; [congruence | assumption].
Qed.

Lemma fullmatch_birthdate_shape :
  forall s, fullmatch birthdate_re s = true <-> birthdate_shape s.
Proof.
  intros s. rewrite fullmatch_lang. unfold birthdate_re, birthdate_shape.
  rewrite lang_cat_inv. split.
  - intros (d & s1 & -> & Hd & H1). apply lang_rep_class in Hd.
    apply lang_cat_inv in H1. destruct H1 as (a & s2 & -> & Ha & H2).
    apply lang_chr_inv in Ha. subst a.
    apply lang_cat_inv in H2. destruct H2 as (m & s3 & -> & Hm & H3).
    apply lang_rep_class in Hm.
    apply lang_cat_inv in H3. destruct H3 as (dot & y & -> & Hdot & Hy).
    apply lang_chr_inv in Hdot. subst dot. apply lang_rep_class in Hy.
    exists d, m, y. tauto.
  - intros (d & m & y & -> & Hd1 & Hd2 & Hm1 & Hm2 & Hy1 & Hy2).
    exists d, ("." ++ m ++ "." ++ y). split; [reflexivity|].
    split; [now apply lang_rep_class|].
    apply lang_cat_inv. exists ".", (m ++ "." ++ y).
    split; [reflexivity | split; [now apply lang_chr_inv|]].
    apply lang_cat_inv. exists m, ("." ++ y).
    split; [reflexivity | split; [now apply lang_rep_class|]].
    apply lang_cat_inv. exists ".", y.
    split; [reflexivity | split; [now apply lang_chr_inv|]].
    now apply lang_rep_class.
Qed.

(** X19. The birthdate pattern accepts exactly two, two and four decimal digits
    with a dot between them; what day, month or year they spell is not
    looked at. *)
Theorem birthdate_pattern_shape :
  forall s, fullmatch birthdate_re s = true <-> birthdate_shape s.
Proof. exact fullmatch_birthdate_shape. Qed.

Lemma email_pattern_shape_witness :
  fullmatch email_re "anna@example.org" = true.
Proof.
  apply email_pattern_shape. exists "anna", "example", "org".
  repeat split.
Defined.

Lemma birthdate_pattern_shape_witness :
  fullmatch birthdate_re "99.99.0000" = true.
Proof.
  apply birthdate_pattern_shape. exists "99", "99", "0000". repeat split.
Defined.

(** *** The three validations *)

Lemma one_error_nil (c : bool) (msg : string) (rest : list string) :
  ((if c then [msg] else []) ++ rest)%list = [] <-> c = false /\ rest = [].
Proof.
  destruct c; simpl; split; try discriminate; auto.
  - intros [[=] _].
  - now intros [_ ->].
Qed.

Lemma mem_In x l : mem x l = true <-> In x l.
Proof.
  unfold mem. rewrite existsb_exists. split.
  - intros (y & Hy & E). apply String.eqb_eq in E. now subst.
  - intros H. exists x. split; auto. apply String.eqb_refl.
Qed.

(** X20. [validate_input_data] finds nothing to report exactly when the day is
    one of the seven day names, the start time is an integer from 8 to 22,
    both ends included, the refresh interval is a positive integer and the
    review time is an integer that is not negative, where [True] and [False]
    count as the integers 1 and 0; and the label [generate_time_slot] makes
    of such a start time has both hours on two digits. *)
Theorem validate_input_data_accepts :
  forall order day time refresh_interval review_time,
    validate_input_data order day time refresh_interval review_time = []
    <-> In day valid_days
        /\ exists hour refresh review,
             as_int time = Some hour /\ 8 <= hour <= 22
             /\ generate_time_slot hour = time_slot_label hour
             /\ as_int refresh_interval = Some refresh /\ 0 < refresh
             /\ as_int review_time = Some review /\ 0 <= review.
Proof.
  intros order day time refresh_interval review_time.
  unfold validate_input_data. cbn [List.concat].
  rewrite !one_error_nil. rewrite negb_false_iff, mem_In.
  split.
  - intros (Hd & Ht & Hr & Hv & _). split; [exact Hd|].
    destruct (as_int time) as [hour|]; [|discriminate].
    destruct (as_int refresh_interval) as [refresh|]; [|discriminate].
    destruct (as_int review_time) as [review|]; [|discriminate].
    apply negb_false_iff, andb_true_iff in Ht. destruct Ht as [H8 H22].
    apply Z.leb_le in H8. apply Z.leb_le in H22.
    apply Z.leb_gt in Hr. apply Z.ltb_ge in Hv.
    exists hour, refresh, review. repeat split; auto.
    apply generate_time_slot_0_98. lia.
  - intros (Hd & hour & refresh & review & -> & Hh & _ & -> & Hr & -> & Hv).
    repeat split; auto.
    + apply negb_false_iff, andb_true_iff. split; apply Z.leb_le; lia.
    + apply Z.leb_gt. lia.
    + apply Z.ltb_ge. lia.
Qed.

Lemma validate_input_data_accepts_witness :
  validate_input_data valid_days "Montag" (PInt 22) (PBool true) (PInt 0)
  = [].
Proof.
  apply validate_input_data_accepts. split.
  - simpl. auto.
  - exists 22, 1, 0. repeat split; lia.
Defined.

(** X21. [validate_personal_details] finds nothing to report exactly when both
    names are non-empty and alphabetic, the postal code is five digits, the
    e-mail address and the birthdate have the shape of their pattern, the
    status is one of the three known ones, and the phone number, its blanks
    and plus signs left out, is non-empty and all digits. Gender, address,
    city and student number are not looked at. *)
Theorem validate_personal_details_accepts :
  forall person,
    validate_personal_details person = []
    <-> isalpha (first_name person) = true
        /\ isalpha (last_name person) = true
        /\ (isdigit (postal_code person) = true
            /\ String.length (postal_code person) = 5%nat)
        /\ email_shape (email person)
        /\ In (status person) ["S-TU"; "TU-Alumni"; "extern"]
        /\ isdigit (remove "+" (remove " " (phone person))) = true
        /\ birthdate_shape (birthdate person).
Proof.
  intros person. unfold validate_personal_details. cbn [List.concat].
  rewrite !one_error_nil. rewrite !negb_false_iff.
  rewrite andb_true_iff, Nat.eqb_eq, mem_In.
  rewrite fullmatch_email_shape, fullmatch_birthdate_shape.
  change (keys valid_status) with ["S-TU"; "TU-Alumni"; "extern"].
  tauto.
Qed.

Lemma validate_personal_details_accepts_witness :
  validate_personal_details anna = [].
Proof.
  apply validate_personal_details_accepts. repeat split.
  - exists "anna", "example", "org". repeat split.
  - simpl. auto.
  - exists "01", "02", "2000". repeat split.
Defined.

(** X22. [validate_config] lets the configuration through exactly when the three
    validations find nothing to report or the answer typed at the prompt
    is, blanks and case apart, a [y]; otherwise it raises the [ValueError]
    whose message is the reports, one per line. *)
Theorem validate_config_outcome :
  forall order self answer,
    (validate_config order self answer = Ok tt
     <-> config_errors order self = [] \/ lower (strip answer) = "y")
    /\ (forall e,
          validate_config order self answer = Raise e ->
          e = ValueError (join nl (config_errors order self))).
Proof.
  intros order self answer. unfold validate_config.
  destruct (config_errors order self) as [|msg rest] eqn:E.
  - split; [tauto | discriminate].
  - destruct (String.eqb (lower (strip answer)) "y") eqn:Ey; simpl.
    + apply String.eqb_eq in Ey. split; [tauto | discriminate].
    + apply String.eqb_neq in Ey. split.
      * split; [discriminate | intros [H|H]; [discriminate | contradiction]].
      * now intros e [= <-].
Qed.

Lemma validate_config_outcome_witness :
  validate_config valid_days
    (mk_settings manager "Montag" (PInt 23) (PInt 1) (PInt 0)) " Y "
  = Ok tt.
Proof.
  apply (proj1 (validate_config_outcome valid_days
                  (mk_settings manager "Montag" (PInt 23) (PInt 1) (PInt 0))
                  " Y ")).
  right. reflexivity.
Defined.

(** ** [fill_personal_details] *)

(** The gender is matched without regard to case and ticked as one of three
    values. *)
Lemma mapped_gender_cases person :
  (lower (gender person) = "male" /\ mapped_gender person = "maennlich")
  \/ (lower (gender person) = "female" /\ mapped_gender person = "weiblich")
  \/ (lower (gender person) <> "male" /\ lower (gender person) <> "female"
      /\ mapped_gender person = "ska").
Proof.
  unfold mapped_gender, gender_mapping. simpl.
  destruct (String.eqb (lower (gender person)) "male") eqn:Em.
  - apply String.eqb_eq in Em. auto.
  - apply String.eqb_neq in Em.
    destruct (String.eqb (lower (gender person)) "female") eqn:Ef.
    + apply String.eqb_eq in Ef. auto.
    + apply String.eqb_neq in Ef. auto.
Qed.

Lemma mapped_gender_id person : In (mapped_gender person) gender_ids.
Proof.
  destruct (mapped_gender_cases person) as [[_ ->]|[[_ ->]|(_ & _ & ->)]];
    simpl; auto.
Qed.

Lemma issues_selectors person index :
  issues (uses_selector
            (person_selectors
               (match index with None => "" | Some i => str_int i end)
               (mapped_gender person)))
         (fill_personal_details person index).
Proof.
  unfold fill_personal_details. cbv zeta.
  repeat step_issues;
    (eexists; split; [reflexivity|]; unfold person_selectors;
     repeat (first [left; reflexivity | right])).
Qed.

Lemma apart_In l1 l2 s : apart l1 l2 = true -> In s l1 -> In s l2 -> False.
Proof.
  unfold apart. rewrite forallb_forall. intros H H1 H2.
  specialize (H _ H1). rewrite forallb_forall in H. specialize (H _ H2).
  now rewrite String.eqb_refl in H.
Qed.

(** X17. Every browser call of [fill_personal_details] addresses a form field,
    and the fields addressed for the first person, who has no suffix, are
    all different from the fields addressed for the second person, who has
    the suffix 2: the second person never overwrites the first. *)
Theorem fill_personal_details_fields_apart :
  forall p1 p2 w1 r1 w1' new1 w2 r2 w2' new2 t1 e1 t2 e2,
    fill_personal_details p1 None w1 = (r1, w1') ->
    log w1' = (new1 ++ log w1)%list ->
    fill_personal_details p2 (Some 2) w2 = (r2, w2') ->
    log w2' = (new2 ++ log w2)%list ->
    In (t1, e1) new1 -> In (t2, e2) new2 ->
    exists s1 s2, selector e1 = Some s1 /\ selector e2 = Some s2 /\ s1 <> s2.
Proof.
  intros p1 p2 w1 r1 w1' new1 w2 r2 w2' new2 t1 e1 t2 e2
    Hr1 Hl1 Hr2 Hl2 Hin1 Hin2.
  destruct (issues_selectors p1 None _ _ _ Hr1) as [_ (n1 & Hl1' & Hs1)].
  destruct (issues_selectors p2 (Some 2) _ _ _ Hr2) as [_ (n2 & Hl2' & Hs2)].
  rewrite <- (new_log_unique _ _ _ _ Hl1 Hl1') in Hs1.
  rewrite <- (new_log_unique _ _ _ _ Hl2 Hl2') in Hs2.
  destruct (stamped_In _ _ _ _ _ _ Hs1 Hin1) as [_ (s1 & He1 & Hin1')].
  destruct (stamped_In _ _ _ _ _ _ Hs2 Hin2) as [_ (s2 & He2 & Hin2')].
  exists s1, s2. repeat split; auto. intros <-.
  assert (Hall : forallb
                   (fun g1 =>
                      forallb
                        (fun g2 =>
                           apart (person_selectors "" g1)
                                 (person_selectors (str_int 2) g2))
                        gender_ids)
                   gender_ids = true) by (vm_compute; reflexivity).
  rewrite forallb_forall in Hall.
  specialize (Hall _ (mapped_gender_id p1)).
  rewrite forallb_forall in Hall.
  specialize (Hall _ (mapped_gender_id p2)).
  exact (apart_In _ _ _ Hall Hin1' Hin2').
Qed.

Lemma fill_personal_details_fields_apart_witness :
  exists s1 s2,
    selector (LocFill (named "input" "Vorname" "") "Anna") = Some s1
    /\ selector (LocFill (named "input" "Vorname" "2") "Bert") = Some s2
    /\ s1 <> s2.
Proof.
  apply (fill_personal_details_fields_apart anna bert
           (world_of [])
           (fst (fill_personal_details anna None (world_of [])))
           (snd (fill_personal_details anna None (world_of [])))
           (log (snd (fill_personal_details anna None (world_of []))))
           (world_of [])
           (fst (fill_personal_details bert (Some 2) (world_of [])))
           (snd (fill_personal_details bert (Some 2) (world_of [])))
           (log (snd (fill_personal_details bert (Some 2) (world_of []))))
           0 (LocFill (named "input" "Vorname" "") "Anna")
           0 (LocFill (named "input" "Vorname" "2") "Bert")).
  - apply surjective_pairing.
  - vm_compute. reflexivity.
  - apply surjective_pairing.
  - vm_compute. reflexivity.
  - vm_compute. repeat (first [left; reflexivity | right]).
  - vm_compute. repeat (first [left; reflexivity | right]).
Defined.

(** ** The day context, from the page to the map *)











(** ** Malformed cells *)

Lemma last_char_nonempty s :
  nonempty s = true -> exists f, last_char s = Ok f.
Proof.
  induction s as [|c s IH]; simpl; [discriminate|]. intros _.
  destruct s as [|c' s']; [eauto|]. apply IH. reflexivity.
Qed.

Lemma collect_slots_raises cells :
  forall ts,
    (exists e, collect_slots cells ts = Raise e)
    <-> existsb malformed cells = true.
Proof.
  induction cells as [|c cells IH]; simpl; intros ts.
  - split; [intros [e H]; discriminate | discriminate].
  - unfold malformed at 1.
    destruct (link_tag c) as [a|]; simpl; [|apply IH].
    destruct (strong_time a) as [t|]; simpl; [|split; eauto].
    destruct (span_detail a) as [s|]; simpl; [|split; eauto].
    destruct (nonempty s) eqn:En; simpl.
    + destruct (last_char_nonempty s En) as [f ->]. simpl. apply IH.
    + destruct s; [|discriminate]. simpl. split; eauto.
Qed.

Lemma scan_row_raises st r :
  (exists e, scan_row st r = Raise e)
  <-> no_header r /\ existsb malformed (bookable r) = true.
Proof.
  destruct st as [d m]. unfold scan_row, no_header.
  destruct (head_cells r) as [|h hs].
  - destruct (bookable r) as [|c cells] eqn:Eb.
    + simpl. split; [intros [e H]; discriminate | intros [_ H]; discriminate].
    + rewrite <- (collect_slots_raises (c :: cells) []).
      destruct (collect_slots (c :: cells) []) as [ts|e]; simpl.
      * split; [intros [e H]; discriminate | intros [_ [e H]]; discriminate].
      * split; eauto.
  - split; [intros [e H]; discriminate | intros [H _]; discriminate].
Qed.

Lemma scan_rows_raises rows :
  forall st,
    (exists e, scan_rows rows st = Raise e)
    <-> exists r,
          In r rows /\ no_header r /\ existsb malformed (bookable r) = true.
Proof.
  induction rows as [|r rows IH]; simpl; intros st.
  - split; [intros [e H]; discriminate | intros (r & [] & _)].
  - destruct (scan_row st r) as [st1|e1] eqn:Er; simpl.
    + rewrite IH. split.
      * intros (r' & Hin & H). exists r'. auto.
      * intros (r' & [<-|Hin] & H); [|eauto].
        exfalso. apply (scan_row_raises st r) in H. destruct H as [e H].
        rewrite Er in H. discriminate.
    + split; [|eauto]. intros _. exists r. split; [now left|].
      apply (scan_row_raises st r). eauto.
Qed.

(** X4. Given a response with status 200 and a schedule, a single malformed
    bookable cell is what makes [fetch_available_slots] fail, and the whole
    of it: it raises exactly when some row without a day header has a
    bookable cell with a link whose time tag or field label is missing or
    whose field label is empty, and then with [AttributeError] or
    [IndexError]; no map of the other rows is returned. *)
Theorem fetch_available_slots_malformed_cell :
  forall url w resp rest rows,
    http w = Some resp :: rest ->
    status_code resp = 200 -> table_body resp = Some rows ->
    ((exists e, fst (fetch_available_slots url w) = Raises e)
     <-> exists r,
           In r rows /\ no_header r
           /\ existsb malformed (bookable r) = true)
    /\ (forall e,
          fst (fetch_available_slots url w) = Raises e ->
          e = AttributeError \/ e = IndexError).
Proof.
  intros url w resp rest rows Hh Hst Hbody.
  rewrite (fetch_available_slots_reply url w resp rest Hh).
  unfold parse_response. rewrite Hst, Hbody. simpl.
  rewrite <- (scan_rows_raises rows (first_day, [])).
  destruct (scan_rows rows (first_day, [])) as [st|e0] eqn:Es; simpl.
  - split; [|discriminate].
    split; [intros [e H]; discriminate | intros [e H]; discriminate].
  - split; [split; eauto|].
    intros e [= <-]. exact (scan_rows_error _ _ _ Es).
Qed.

Lemma fetch_available_slots_malformed_cell_witness :
  exists e,
    fst (fetch_available_slots overview_url (world_of [broken_page]))
    = Raises e.
Proof.
  apply (proj1 (fetch_available_slots_malformed_cell overview_url
                  (world_of [broken_page]) broken_page [] 
                  [monday_row; empty_label_row] eq_refl eq_refl eq_refl)).
  exists empty_label_row. split; [right; now left | split; reflexivity].
Defined.

(** ** How [fill_form] ends *)

Lemma ends_ret {A : Type} (a : A) : ends (ret a).
Proof. intros w. left. exists a, w. reflexivity. Qed.

Lemma ends_bind {A B : Type} (m : M A) (k : A -> M B) :
  ends m -> (forall a, ends (k a)) -> ends (bind m k).
Proof.
  intros Hm Hk w. unfold bind.
  destruct (Hm w) as [(a & w1 & ->)|(w1 & ->)]; [apply Hk | right; eauto].
Qed.

Lemma ends_act e : ends (act e).
Proof.
  intros w. destruct (act e w) as [r w'] eqn:E.
  destruct (act_inv _ _ _ _ E) as (_ & _ & [->| ->]); [left | right]; eauto.
Qed.

Lemma ends_is_visible s : ends (is_visible s).
Proof.
  intros w. left. unfold is_visible, bind, emit, elapse, next_answer. simpl.
  destruct (delays w); simpl; destruct (browser w); eauto.
Qed.

Lemma ends_goto url : ends (goto url).
Proof.
  destruct url; simpl; [apply ends_act|].
  intros w. right. unfold bind, emit, raise. eauto.
Qed.

Lemma ends_time_sleep s : ends (time_sleep s).
Proof.
  intros w. destruct (time_sleep s w) as [r w'] eqn:E.
  destruct (time_sleep_inv _ _ _ _ E) as (-> & _). left. eauto.
Qed.

Ltac step_ends :=
  lazymatch goal with
  | |- ends (bind _ _) => apply ends_bind; [|intros]
  | |- ends (act _) => apply ends_act
  | |- ends (is_visible _) => apply ends_is_visible
  | |- ends (goto _) => apply ends_goto
  | |- ends (time_sleep _) => apply ends_time_sleep
  | |- ends (ret _) => apply ends_ret
  | |- ends (if ?b then _ else _) => destruct b
  end.

Lemma ends_fill_personal_details person index :
  ends (fill_personal_details person index).
Proof. unfold fill_personal_details. cbv zeta. repeat step_ends. Qed.

Lemma ends_enter_data self url : ends (enter_data self url).
Proof.
  unfold enter_data.
  repeat first [apply ends_fill_personal_details | step_ends].
Qed.

Lemma ends_wind_up : ends wind_up.
Proof. unfold wind_up. repeat step_ends. Qed.

(** X16. Given a tick for every second of the review time and two to spare,
    [fill_form] comes to an end in every world, whatever the link, however
    long the browser calls take and whether or not the birthdate fields are
    visible: either it returns, having issued the final click, or it raises
    the error of a browser call that failed. The wait for the review time
    never goes on for ever. *)
Theorem fill_form_ends :
  forall self ticks url review_time_s w,
    (0 < ticks)%nat -> review_time_s < Z.of_nat ticks - 1 ->
    (exists w' t,
       fill_form self ticks url review_time_s w = (Returns tt, w')
       /\ In (t, pay_and_book) (log w'))
    \/ exists w',
         fill_form self ticks url review_time_s w
         = (Raises PlaywrightError, w').
Proof.
  intros self ticks url review_time_s w Hpos Hticks.
  assert (H : exists r w',
             fill_form self ticks url review_time_s w = (r, w')
             /\ ((r = Returns tt /\ exists t, In (t, pay_and_book) (log w'))
                 \/ r = Raises PlaywrightError)).
  { unfold fill_form. unfold bind at 1.
    destruct (ends_enter_data self url w) as [([] & w1 & H1)|(w1 & H1)];
      rewrite H1; [|eauto 6].
    unfold bind at 1.
    destruct (ends_act confirm_box w1) as [([] & w2 & H2)|(w2 & H2)];
      rewrite H2; [|eauto 6].
    unfold bind at 1. unfold time_time at 1.
    assert (Hneed : review_time_s * 1000 - (now w2 - now w2)
                    < (Z.of_nat ticks - 1) * 1000) by lia.
    destruct (review_wait_returns ticks (now w2) review_time_s w2 Hpos Hneed)
      as [w3 H3].
    unfold bind at 1. rewrite H3.
    unfold bind at 1.
    destruct (act pay_and_book w3) as [r4 w4] eqn:H4.
    destruct (act_inv _ _ _ _ H4) as (Hl4 & _ & [Hr|Hr]); rewrite Hr;
      [|eauto 6].
    destruct (ends_wind_up w4) as [([] & w5 & H5)|(w5 & H5)]; rewrite H5;
      [|eauto 6].
    exists (Returns tt), w5. split; [reflexivity|]. left.
    split; [reflexivity|]. exists (now w3).
    destruct (issues_wind_up _ _ _ H5) as [_ (new & Hl & _)].
    rewrite Hl, Hl4. apply in_or_app. right. now left. }
  destruct H as (r & w' & Hrun & [[-> [t Hin]]| ->]); [left | right]; eauto.
Qed.

Lemma fill_form_ends_witness :
  (exists w' t,
     fill_form manager 10 (Some "link-a") 2 hidden_birthdate
     = (Returns tt, w')
     /\ In (t, pay_and_book) (log w'))
  \/ exists w',
       fill_form manager 10 (Some "link-a") 2 hidden_birthdate
       = (Raises PlaywrightError, w').
Proof.
  apply (fill_form_ends manager 10 (Some "link-a") 2 hidden_birthdate);
    [lia | simpl; lia].
Defined.

(** ** The ticks of the review wait *)

Lemma review_wait_sleeps t0 review_time_s ticks :
  forall j w r w' new,
    0 <= j -> t0 + j * 1000 <= now w ->
    review_wait ticks t0 review_time_s w = (r, w') ->
    log w' = (new ++ log w)%list ->
    Forall (fun te => snd te = Sleep 1) new
    /\ Z.of_nat (List.length new) <= Z.max 0 (review_time_s + 1 - j).
Proof.
  induction ticks as [|n IH]; intros j w r w' new Hj Hnow Hrun Hlog.
  - simpl in Hrun. injection Hrun as _ <-.
    assert (new = []) by (apply (app_inv_tail (log w)); now rewrite <- Hlog).
    subst new. simpl. split; [constructor | lia].
  - simpl in Hrun. unfold bind at 1 in Hrun. unfold time_time at 1 in Hrun.
    destruct (review_time_s * 1000 <? now w - t0) eqn:E.
    + injection Hrun as _ <-.
      assert (new = []) by (apply (app_inv_tail (log w)); now rewrite <- Hlog).
      subst new. simpl. split; [constructor | lia].
    + apply Z.ltb_ge in E. unfold bind at 1 in Hrun.
      destruct (time_sleep 1 w) as [r1 w1] eqn:Es.
      destruct (time_sleep_inv _ _ _ _ Es) as (-> & Hl1 & Hn1).
      destruct (issues_sleeps_review_wait _ _ _ _ _ _ Hrun)
        as [_ (new1 & Hl & _)].
      assert (Hnew : new = (new1 ++ [(now w, Sleep 1)])%list).
      { apply (app_inv_tail (log w)). rewrite <- Hlog, Hl, Hl1.
        now rewrite <- app_assoc. }
      destruct (IH (j + 1) w1 r w' new1) as [Hall Hlen]; auto; try lia.
      subst new. split.
      * apply Forall_app. split; [exact Hall|]. constructor; [reflexivity|].
        constructor.
      * rewrite length_app. simpl. lia.
Qed.

(** The wait for the review time, started at or after the reading [t0] of
    the clock, does nothing but sleep for one second at a time, at most
    [review_time_s + 1] times. *)
Lemma review_wait_sleeps_bounded ticks t0 review_time_s w r w' new :
  t0 <= now w ->
  review_wait ticks t0 review_time_s w = (r, w') ->
  log w' = (new ++ log w)%list ->
  Forall (fun te => snd te = Sleep 1) new
  /\ Z.of_nat (List.length new) <= Z.max 0 (review_time_s + 1).
Proof.
  intros Hnow Hrun Hlog.
  replace (review_time_s + 1) with (review_time_s + 1 - 0) by lia.
  apply (review_wait_sleeps t0 review_time_s ticks 0 w r w' new);
    auto; lia.
Qed.

Lemma ticks_slept_app l1 l2 :
  ticks_slept (l1 ++ l2) = (ticks_slept l1 + ticks_slept l2)%nat.
Proof. unfold ticks_slept. now rewrite filter_app, length_app. Qed.

Lemma ticks_slept_length l : (ticks_slept l <= List.length l)%nat.
Proof. unfold ticks_slept. apply filter_length_le. Qed.

Lemma ticks_slept_none lo hi l :
  Forall (stamped no_tick lo hi) l -> ticks_slept l = 0%nat.
Proof.
  intros Hall. induction Hall as [|[t e] l [_ He] _ IH]; auto.
  unfold ticks_slept in *. simpl. unfold no_tick, is_tick in *. simpl in *.
  now rewrite He.
Qed.

Lemma issues_no_tick_enter_data self url :
  issues no_tick (enter_data self url).
Proof.
  apply (issues_weaken (page_event url)); [|apply issues_page_enter_data].
  intros e. destruct e; simpl; try reflexivity; tauto.
Qed.

Lemma issues_no_tick_final : issues no_tick (act pay_and_book ;; wind_up).
Proof. unfold wind_up. repeat step_issues; reflexivity. Qed.

(** What [m] adds to the log, when it sleeps no single second. *)
Lemma no_tick_run {A : Type} (m : M A) w r w' :
  issues no_tick m -> m w = (r, w') ->
  exists new, log w' = (new ++ log w)%list /\ ticks_slept new = 0%nat.
Proof.
  intros Hm Hrun. destruct (Hm _ _ _ Hrun) as [_ (new & Hl & Hs)].
  exists new. split; [exact Hl|]. eapply ticks_slept_none; eauto.
Qed.

(** X15. In every run of [fill_form], however it ends and however long the
    browser calls and the sleeps really take, the countdown of the review time
    sleeps for one second at most [review_time_s + 1] times; with a negative
    review time it does not sleep at all. *)
Theorem fill_form_ticks_bounded :
  forall self ticks url review_time_s w r w' new,
    fill_form self ticks url review_time_s w = (r, w') ->
    log w' = (new ++ log w)%list ->
    Z.of_nat (ticks_slept new) <= Z.max 0 (review_time_s + 1).
Proof.
  intros self ticks url review_time_s w r w' new Hrun Hlog.
  assert (H : exists new',
             log w' = (new' ++ log w)%list
             /\ Z.of_nat (ticks_slept new') <= Z.max 0 (review_time_s + 1)).
  { unfold fill_form in Hrun.
    assert (Ibox : issues no_tick (act confirm_box))
      by (apply issues_act; reflexivity).
    apply bind_inv in Hrun. destruct Hrun as [([] & w1 & H1 & H)|Hstop].
    2: { assert (Hr : exists r1, enter_data self url w = (r1, w'))
           by (destruct Hstop as [(e & He & _)|[He _]]; eauto).
         destruct Hr as [r1 Hr].
         destruct (no_tick_run _ _ _ _ (issues_no_tick_enter_data _ _) Hr)
           as (n1 & Hl & Hz).
         exists n1. split; [exact Hl | lia]. }
    destruct (no_tick_run _ _ _ _ (issues_no_tick_enter_data _ _) H1)
      as (n1 & Hl1 & Hz1).
    apply bind_inv in H. destruct H as [([] & w2 & H2 & H)|Hstop].
    2: { assert (Hr : exists r2, act confirm_box w1 = (r2, w'))
           by (destruct Hstop as [(e & He & _)|[He _]]; eauto).
         destruct Hr as [r2 Hr].
         destruct (no_tick_run _ _ _ _ Ibox Hr) as (n2 & Hl & Hz).
         exists (n2 ++ n1)%list. rewrite Hl, Hl1, app_assoc.
         split; [reflexivity|]. rewrite ticks_slept_app. lia. }
    destruct (no_tick_run _ _ _ _ Ibox H2) as (n2 & Hl2 & Hz2).
    unfold bind at 1 in H. unfold time_time at 1 in H.
    apply bind_inv in H.
    assert (Hwait : forall r3 w3,
               review_wait ticks (now w2) review_time_s w2 = (r3, w3) ->
               exists n3,
                 log w3 = (n3 ++ log w2)%list
                 /\ Z.of_nat (ticks_slept n3) <= Z.max 0 (review_time_s + 1)).
    { intros r3 w3 Hw.
      destruct (issues_sleeps_review_wait _ _ _ _ _ _ Hw)
        as [_ (n3 & Hl3 & _)].
      exists n3. split; [exact Hl3|].
      destruct (review_wait_sleeps_bounded ticks (now w2) review_time_s w2
                  r3 w3 n3 (Z.le_refl _) Hw Hl3) as [_ Hlen].
      pose proof (ticks_slept_length n3). lia. }
    destruct H as [([] & w3 & H3 & H)|Hstop].
    2: { assert (Hr : exists r3,
                    review_wait ticks (now w2) review_time_s w2 = (r3, w'))
           by (destruct Hstop as [(e & He & _)|[He _]]; eauto).
         destruct Hr as [r3 Hr]. destruct (Hwait _ _ Hr) as (n3 & Hl & Hb).
         exists (n3 ++ n2 ++ n1)%list. rewrite Hl, Hl2, Hl1, <- !app_assoc.
         split; [reflexivity|]. rewrite !ticks_slept_app. lia. }
    destruct (Hwait _ _ H3) as (n3 & Hl3 & Hb3).
    destruct (no_tick_run _ _ _ _ issues_no_tick_final H) as (n4 & Hl4 & Hz4).
    exists (n4 ++ n3 ++ n2 ++ n1)%list.
    rewrite Hl4, Hl3, Hl2, Hl1, <- !app_assoc.
    split; [reflexivity|]. rewrite !ticks_slept_app. lia. }
  destruct H as (new' & Hl & Hb).
  now rewrite (new_log_unique _ _ _ _ Hlog Hl).
Qed.

Lemma fill_form_ticks_bounded_witness :
  Z.of_nat (ticks_slept (log (snd sample_run))) <= Z.max 0 (2 + 1).
Proof.
  apply (fill_form_ticks_bounded manager 10 (Some "link-a") 2 (world_of [])
           (Returns tt) (snd sample_run) (log (snd sample_run))
           sample_run_returns sample_run_log).
Defined.
